(** * UniversalTelegramExporter: a shallow embedding of the download engine

    The Python sources embedded here are
    - [utils/state.py]           (module [State]),
    - [utils/models.py]          (module [Models]),
    - [utils/error_handler.py]   (module [ErrorHandlerPy]),
    - [utils/file_management.py] (module [FileManagement]),
    - [main.py]                  (module [Main]).

    Python integers are [Z]; Python lists are [list]; a Python [set] is a
    stdpp [gset]; Python floats are idealised as rationals ([Q]); calls
    into the outside world (Telegram client, file system, random numbers)
    are read from explicit environment records. *)

From Stdlib Require Import ZArith QArith Qminmax Lqa List String Ascii Bool Lia.
From Stdlib Require Import Strings.Byte.
From stdpp Require Import base decidable list gmap sets strings pretty.
Import ListNotations.

Local Open Scope Z_scope.
Local Open Scope list_scope.

(** ** Python values the embedding shares *)

Module Py.

(** The exception classes the dispatcher's [except] clauses test with
    [isinstance], most specific first.  In telethon
    [FileReferenceExpiredError] derives from [BadRequestError]; everything
    modelled derives from [Exception] (exits such as [KeyboardInterrupt],
    which derive from [BaseException] only, are outside the model). *)
Inductive exc_class : Type :=
| FileReferenceExpiredErrorC
| TimeoutErrorC
| BadRequestErrorC
| ExceptionC.

(** An exception instance: [type(e).__name__] and the class it falls under. *)
Record PyExc : Type := mkExc {
  exc_type_name : string;
  exc_isinstance : exc_class
}.

(** The result of a Python call: a value, or a raised exception. *)
Inductive result (A : Type) : Type :=
| Ok (a : A)
| Raise (e : PyExc).
Arguments Ok {A} a.
Arguments Raise {A} e.

Definition bind {A B : Type} (c : result A) (k : A -> result B) : result B :=
  match c with
  | Ok a => k a
  | Raise e => Raise e
  end.

Definition ZeroDivisionError : PyExc := mkExc "ZeroDivisionError" ExceptionC.
Definition ValueError : PyExc := mkExc "ValueError" ExceptionC.

(** [a / b] on Python integers: true division, idealised in [Q]. *)
Definition truediv (a b : Z) : result Q :=
  if decide (b = 0) then Raise ZeroDivisionError
  else Ok (inject_Z a / inject_Z b)%Q.

(** [max(l)]: raises [ValueError] on an empty list. *)
Definition py_max (l : list Z) : result Z :=
  match l with
  | [] => Raise ValueError
  | x :: l' => Ok (fold_left Z.max l' x)
  end.

End Py.

Notation "'let!' x ':=' c 'in' k" := (Py.bind c (fun x => k))
  (at level 10, x name, c at level 100, k at level 200).

(** ** utils/state.py *)

Module State.

(** [class DownloadState]: two lists of message ids and a byte counter. *)
Record DownloadState : Type := mkDownloadState {
  failed_ids : list Z;
  downloaded_ids : list Z;
  total_size_bytes : Z
}.

(** [DownloadState()] with the dataclass defaults. *)
Definition new_state : DownloadState :=
  {| failed_ids := []; downloaded_ids := []; total_size_bytes := 0 |}.

(** [mark_downloaded]: append and add the size only when the id is not
    yet in [downloaded_ids]. *)
Definition mark_downloaded (message_id file_size : Z) (self : DownloadState)
  : DownloadState :=
  if decide (message_id ∈ downloaded_ids self) then self
  else {| failed_ids := failed_ids self;
          downloaded_ids := downloaded_ids self ++ [message_id];
          total_size_bytes := total_size_bytes self + file_size |}.

(** [mark_failed]: append only when the id is not yet in [failed_ids]. *)
Definition mark_failed (message_id : Z) (self : DownloadState) : DownloadState :=
  if decide (message_id ∈ failed_ids self) then self
  else {| failed_ids := failed_ids self ++ [message_id];
          downloaded_ids := downloaded_ids self;
          total_size_bytes := total_size_bytes self |}.

(** [reset]. *)
Definition reset (self : DownloadState) : DownloadState := new_state.

(** [get_retry_ids]:
    [list(set(existing_retry_ids) - set(self.downloaded_ids)) + self.failed_ids].
    The iteration order of a Python set is unspecified; [elements] fixes
    one order, and nothing below depends on which. *)
Definition get_retry_ids (self : DownloadState) (existing_retry_ids : list Z)
  : list Z :=
  elements ((list_to_set existing_retry_ids : gset Z)
              ∖ list_to_set (downloaded_ids self))
    ++ failed_ids self.

(** A call of one of the two marking methods, and a run of such calls
    on a fresh state. *)
Inductive mark_op : Type :=
| MarkDownloaded (message_id file_size : Z)
| MarkFailed (message_id : Z).

Definition apply_mark (self : DownloadState) (o : mark_op) : DownloadState :=
  match o with
  | MarkDownloaded i n => mark_downloaded i n self
  | MarkFailed i => mark_failed i self
  end.

Definition run_marks (ops : list mark_op) : DownloadState :=
  fold_left apply_mark ops new_state.

End State.


(** ** utils/models.py *)

Module Models.
Import Py.

(** [class DownloadSummary]. *)
Record DownloadSummary : Type := mkDownloadSummary {
  total_messages : Z;
  successful_downloads : Z;
  failed_downloads : Z;
  skipped_messages : Z;
  total_size_bytes : Z;
  duration_seconds : Q
}.

(** [get_success_rate]: [0.0] when nothing was attempted, else
    [(successful_downloads / total_attempts) * 100]. *)
Definition get_success_rate (self : DownloadSummary) : result Q :=
  let total_attempts := successful_downloads self + failed_downloads self in
  if decide (total_attempts = 0) then Ok 0%Q
  else
    let! ratio := truediv (successful_downloads self) total_attempts in
    Ok (ratio * 100)%Q.

End Models.

(** ** utils/error_handler.py *)

Module ErrorHandlerPy.
Import Py.
Local Open Scope string_scope.

(** [class UserFriendlyError(Enum)]. *)
Inductive UserFriendlyError : Type :=
| FILE_REFERENCE_EXPIRED
| TIMEOUT
| BAD_REQUEST
| UNAUTHORIZED
| FILE_TOO_LARGE
| NETWORK_ERROR
| DIRECTORY_NOT_FOUND
| CONFIG_INVALID
| UNKNOWN_ERROR.

(** [get_severity]: the [severity] entry of the member's value. *)
Definition get_severity (self : UserFriendlyError) : string :=
  match self with
  | FILE_REFERENCE_EXPIRED => "WARNING"
  | TIMEOUT => "WARNING"
  | BAD_REQUEST => "ERROR"
  | UNAUTHORIZED => "ERROR"
  | FILE_TOO_LARGE => "ERROR"
  | NETWORK_ERROR => "WARNING"
  | DIRECTORY_NOT_FOUND => "ERROR"
  | CONFIG_INVALID => "ERROR"
  | UNKNOWN_ERROR => "ERROR"
  end.

(** [from_exception]: the table keyed by [type(exception).__name__],
    in the order the dict literal lists it, with [UNKNOWN_ERROR] as default. *)
Definition mapping : list (string * UserFriendlyError) :=
  [ ("FileReferenceExpiredError", FILE_REFERENCE_EXPIRED);
    ("TimeoutError", TIMEOUT);
    ("BadRequestError", BAD_REQUEST);
    ("AuthorizationError", UNAUTHORIZED);
    ("FloodWaitError", TIMEOUT);
    ("ConnectionError", NETWORK_ERROR);
    ("OSError", DIRECTORY_NOT_FOUND);
    ("ValueError", CONFIG_INVALID) ].

Fixpoint dict_get {V : Type} (d : list (string * V)) (k : string) (default : V) : V :=
  match d with
  | [] => default
  | (k', v) :: d' => if String.eqb k k' then v else dict_get d' k default
  end.

Definition from_exception (exception : PyExc) : UserFriendlyError :=
  dict_get mapping (exc_type_name exception) UNKNOWN_ERROR.

(** [class ErrorHandler]: the two counters. *)
Record ErrorHandler : Type := mkErrorHandler {
  error_count : Z;
  warnings_count : Z
}.

(** [ErrorHandler()]. *)
Definition new_handler : ErrorHandler :=
  {| error_count := 0; warnings_count := 0 |}.

(** The levels a call logs at. *)
Inductive log_level : Type := LOG_ERROR | LOG_WARNING | LOG_DEBUG.

(** Whether [handle_error] books the call as an error:
    [critical or user_error.get_severity() == "ERROR"]. *)
Definition books_error (exception : PyExc) (critical : bool) : bool :=
  critical || String.eqb (get_severity (from_exception exception)) "ERROR".

(** [handle_error(exception, message_id, logger, critical)].  [logger] is
    the truth value of the logger argument ([None], the default, is false).
    Returns the handler after the call and the levels logged.  The message
    id only enters the text of the log line. *)
Definition handle_error (self : ErrorHandler) (exception : PyExc)
    (message_id : option Z) (logger : bool) (critical : bool)
  : ErrorHandler * list log_level :=
  if logger then
    if books_error exception critical then
      ({| error_count := error_count self + 1;
          warnings_count := warnings_count self |},
       [LOG_ERROR; LOG_DEBUG])
    else
      ({| error_count := error_count self;
          warnings_count := warnings_count self + 1 |},
       [LOG_WARNING; LOG_DEBUG])
  else (self, []).

(** [", ".join(parts)]. *)
Fixpoint join (sep : string) (parts : list string) : string :=
  match parts with
  | [] => ""
  | [p] => p
  | p :: ps => p ++ sep ++ join sep ps
  end.

Definition NO_ERRORS : string := "✅ No errors or warnings".

(** [f"❌ {n} error{'s' if n != 1 else ''}"]. *)
Definition errors_part (n : Z) : string :=
  "❌ " ++ pretty n ++ " error" ++ (if decide (n ≠ 1) then "s" else "").

(** [f"⚠️ {n} warning{'s' if n != 1 else ''}"]. *)
Definition warnings_part (n : Z) : string :=
  "⚠️ " ++ pretty n ++ " warning" ++ (if decide (n ≠ 1) then "s" else "").

(** [get_summary]. *)
Definition get_summary (self : ErrorHandler) : string :=
  if decide (error_count self = 0 /\ warnings_count self = 0) then NO_ERRORS
  else
    let parts : list string := [] in
    let parts :=
      if decide (error_count self > 0)
      then (parts ++ [errors_part (error_count self)])%list else parts in
    let parts :=
      if decide (warnings_count self > 0)
      then (parts ++ [warnings_part (warnings_count self)])%list else parts in
    join ", " parts.

(** [reset]. *)
Definition reset (self : ErrorHandler) : ErrorHandler := new_handler.

(** One call of [handle_error], and a run of calls on a fresh handler. *)
Record handle_call : Type := mkCall {
  call_exception : PyExc;
  call_message_id : option Z;
  call_logger : bool;
  call_critical : bool
}.

Definition apply_call (self : ErrorHandler) (c : handle_call) : ErrorHandler :=
  fst (handle_error self (call_exception c) (call_message_id c)
         (call_logger c) (call_critical c)).

Definition run_calls (calls : list handle_call) : ErrorHandler :=
  fold_left apply_call calls new_handler.

(** A call that is booked as an error, resp. as a warning. *)
Definition counts_error (c : handle_call) : bool :=
  call_logger c && books_error (call_exception c) (call_critical c).

Definition counts_warning (c : handle_call) : bool :=
  call_logger c && negb (books_error (call_exception c) (call_critical c)).

End ErrorHandlerPy.

(** ** utils/file_management.py *)

Module FileManagement.
Local Open Scope string_scope.

(** *** pathlib.PurePosixPath, as far as the module uses it *)

(** [s.split(c)] for a one-character separator. *)
Fixpoint split_on (c : ascii) (l : list ascii) : list (list ascii) :=
  match l with
  | [] => [[]]
  | x :: l' =>
      if Ascii.eqb x c then [] :: split_on c l'
      else match split_on c l' with
           | h :: t => (x :: h) :: t
           | [] => [[x]]
           end
  end.

(** The components of a path: empty components and [.] are dropped. *)
Definition path_parts (p : string) : list string :=
  filter (fun s => s <> "" /\ s <> ".")
    (map string_of_list_ascii (split_on "/" (list_ascii_of_string p))).

Definition is_absolute (p : string) : bool := String.prefix "/" p.

Definition join_path (sep : string) (parts : list string) : string :=
  fold_right (fun s acc => if decide (acc = "") then s else s ++ sep ++ acc) "" parts.

(** [str(PurePosixPath(...))] from the anchor and the components. *)
Definition path_str (absolute : bool) (parts : list string) : string :=
  match parts with
  | [] => if absolute then "/" else "."
  | _ => (if absolute then "/" else "") ++ join_path "/" parts
  end.

(** [str(posix_path.parent)]. *)
Definition parent (p : string) : string :=
  path_str (is_absolute p) (removelast (path_parts p)).

(** [posix_path.name]. *)
Definition name (p : string) : string := List.last (path_parts p) "".

(** [name.rfind(".")]. *)
Fixpoint rfind_dot (l : list ascii) : option nat :=
  match l with
  | [] => None
  | x :: l' =>
      match rfind_dot l' with
      | Some i => Some (S i)
      | None => if Ascii.eqb x "." then Some O else None
      end
  end.

(** [posix_path.stem]: the name without its last suffix; a leading or a
    trailing dot starts no suffix. *)
Definition stem (p : string) : string :=
  let n := list_ascii_of_string (name p) in
  match rfind_dot n with
  | Some i =>
      if (0 <? i)%nat && (i <? length n - 1)%nat
      then string_of_list_ascii (take i n) else name p
  | None => name p
  end.

Fixpoint starts_with (pre l : list ascii) : bool :=
  match pre, l with
  | [], _ => true
  | a :: pre', b :: l' => Ascii.eqb a b && starts_with pre' l'
  | _ :: _, [] => false
  end.

(** [s.split(sep)[0]]: the text before the first occurrence of [sep]. *)
Fixpoint before_first (sep l : list ascii) : list ascii :=
  match l with
  | [] => []
  | x :: l' => if starts_with sep l then [] else x :: before_first sep l'
  end.

(** [posix_path.stem.split("-copy")[0]]. *)
Definition file_base_name (file_path : string) : string :=
  string_of_list_ascii
    (before_first (list_ascii_of_string "-copy")
       (list_ascii_of_string (stem file_path))).

(** [s.translate({ord("["): "[[]", ord("]"): "[]]"})]. *)
Fixpoint translate_brackets (l : list ascii) : list ascii :=
  match l with
  | [] => []
  | x :: l' =>
      (if Ascii.eqb x "[" then list_ascii_of_string "[[]"
       else if Ascii.eqb x "]" then list_ascii_of_string "[]]"
       else [x]) ++ translate_brackets l'
  end.

(** The pattern handed to [glob.glob]:
    [f"{posix_path.parent}/{file_base_name}*"], brackets translated. *)
Definition name_pattern (file_path : string) : string :=
  string_of_list_ascii
    (translate_brackets
       (list_ascii_of_string
          (parent file_path ++ "/" ++ file_base_name file_path ++ "*"))).

(** *** The file system *)

(** A file: its bytes, whether it can be opened for reading, and whether
    [os.remove] succeeds on it. *)
Record FileEntry : Type := mkFile {
  content : list byte;
  readable : bool;
  removable : bool
}.

(** The files by path, in the order the directory lists them.  A file is
    known under one path string. *)
Definition FileSystem : Type := list (string * FileEntry).

Fixpoint fs_find (fs : FileSystem) (p : string) : option FileEntry :=
  match fs with
  | [] => None
  | (q, e) :: fs' => if String.eqb p q then Some e else fs_find fs' p
  end.

(** [open(p, "rb")] and reading: [None] stands for the raised [IOError]. *)
Definition fs_read (fs : FileSystem) (p : string) : option (list byte) :=
  match fs_find fs p with
  | Some e => if readable e then Some (content e) else None
  | None => None
  end.

(** [os.remove(p)]: [None] stands for the raised [OSError]. *)
Definition fs_remove (fs : FileSystem) (p : string) : option FileSystem :=
  match fs_find fs p with
  | Some e =>
      if removable e
      then Some (List.filter (fun qe => negb (String.eqb p (fst qe))) fs)
      else None
  | None => None
  end.

(** The paths present. *)
Definition fs_paths (fs : FileSystem) : list string := map fst fs.

Definition CHUNK_SIZE : nat := 4096.

(** [iter(lambda: f.read(4096), ...)]: the chunks read until the first
    empty read.  [fuel] bounds the number of reads. *)
Fixpoint read_chunks (fuel : nat) (data : list byte) : list (list byte) :=
  match fuel with
  | O => []
  | S fuel' =>
      match take CHUNK_SIZE data with
      | [] => []
      | chunk => chunk :: read_chunks fuel' (drop CHUNK_SIZE data)
      end
  end.

(** [list.remove(x)] guarded by [x in list]: the first occurrence goes. *)
Fixpoint remove_first (x : string) (l : list string) : list string :=
  match l with
  | [] => []
  | y :: l' => if String.eqb x y then l' else y :: remove_first x l'
  end.

Section WithLibraries.

(** [hashlib.md5]: a fresh hash object, [update] and [hexdigest]. *)
Variable md5_state : Type.
Variable md5 : md5_state.
Variable md5_update : md5_state -> list byte -> md5_state.
Variable md5_hexdigest : md5_state -> string.

(** [glob.glob] on the current file system. *)
Variable glob : FileSystem -> string -> list string.

(** [calculate_file_hash]: [None] stands for the re-raised [IOError]. *)
Definition calculate_file_hash (fs : FileSystem) (file_path : string)
  : option string :=
  match fs_read fs file_path with
  | Some data =>
      Some (md5_hexdigest
              (fold_left md5_update (read_chunks (S (length data)) data) md5))
  | None => None
  end.

(** The [for old_file_path in old_files] loop of [manage_duplicate_file]. *)
Fixpoint check_old_files (fs : FileSystem) (file_path current_file_md5 : string)
    (old_files : list string) : string * FileSystem :=
  match old_files with
  | [] => (file_path, fs)
  | old_file_path :: rest =>
      match calculate_file_hash fs old_file_path with
      | None => check_old_files fs file_path current_file_md5 rest
      | Some old_file_md5 =>
          if String.eqb current_file_md5 old_file_md5 then
            match fs_remove fs file_path with
            | Some fs' => (old_file_path, fs')
            | None => (file_path, fs)
            end
          else check_old_files fs file_path current_file_md5 rest
      end
  end.

(** The candidates the loop visits: what [glob.glob] returned, without
    the first occurrence of [file_path]. *)
Definition old_files (fs : FileSystem) (file_path : string) : list string :=
  remove_first file_path (glob fs (name_pattern file_path)).

(** [manage_duplicate_file]: the path returned and the file system left. *)
Definition manage_duplicate_file (fs : FileSystem) (file_path : string)
  : string * FileSystem :=
  match calculate_file_hash fs file_path with
  | None => (file_path, fs)
  | Some current_file_md5 =>
      check_old_files fs file_path current_file_md5 (old_files fs file_path)
  end.

End WithLibraries.

(** *** A model of [glob.glob] for concrete file systems

    Enough of [glob] and [fnmatch] for the patterns [name_pattern] builds:
    literal characters, [*], [?], and the classes [[[]] and [[]]] the
    bracket translation produces; [*] and [?] stay within one component
    and match no leading dot. *)

Inductive pat_elem : Type :=
| PLit (c : ascii)
| PStar
| PAny.

Fixpoint parse_pattern (l : list ascii) : list pat_elem :=
  match l with
  | [] => []
  | x :: l1 =>
      if Ascii.eqb x "*" then PStar :: parse_pattern l1
      else if Ascii.eqb x "?" then PAny :: parse_pattern l1
      else if Ascii.eqb x "[" then
        match l1 with
        | y :: z :: l3 =>
            if Ascii.eqb z "]" && (Ascii.eqb y "[" || Ascii.eqb y "]")
            then PLit y :: parse_pattern l3
            else PLit x :: parse_pattern l1
        | _ => PLit x :: parse_pattern l1
        end
      else PLit x :: parse_pattern l1
  end.

Fixpoint glob_match (pat : list pat_elem) (start : bool) : list ascii -> bool :=
  match pat with
  | [] => fun s => match s with [] => true | _ :: _ => false end
  | PLit c :: pat' => fun s =>
      match s with
      | x :: s' => Ascii.eqb c x && glob_match pat' (Ascii.eqb x "/") s'
      | [] => false
      end
  | PAny :: pat' => fun s =>
      match s with
      | x :: s' =>
          negb (Ascii.eqb x "/") && negb (start && Ascii.eqb x ".")
          && glob_match pat' false s'
      | [] => false
      end
  | PStar :: pat' =>
      (fix star (first : bool) (s : list ascii) {struct s} : bool :=
         match s with
         | [] => glob_match pat' false []
         | x :: s' =>
             if first && Ascii.eqb x "." then false
             else glob_match pat' false s
                  || (negb (Ascii.eqb x "/") && star false s')
         end) start
  end.

(** The paths of the file system the pattern matches, in listing order. *)
Definition posix_glob (fs : FileSystem) (pattern : string) : list string :=
  filter (fun p => glob_match (parse_pattern (list_ascii_of_string pattern))
                     true (list_ascii_of_string p) = true)
    (fs_paths fs).

(** A stand-in for [hashlib.md5] on concrete file systems: the digest
    spells out the bytes fed to the hash object, so two files have the
    same digest exactly when they have the same bytes. *)
Definition plain_update (h : list byte) (chunk : list byte) : list byte :=
  h ++ chunk.

Definition plain_hexdigest (h : list byte) : string := string_of_list_byte h.

(** Two byte-identical files [name] and [name-copy1.ext] in one
    directory, and the same directory when the second file cannot be
    removed. *)
Definition two_copies : FileSystem :=
  [ ("/out/photo/name", mkFile [x68; x69] true true);
    ("/out/photo/name-copy1.ext", mkFile [x68; x69] true true) ].

Definition two_copies_locked : FileSystem :=
  [ ("/out/photo/name", mkFile [x68; x69] true true);
    ("/out/photo/name-copy1.ext", mkFile [x68; x69] true false) ].

End FileManagement.

(** ** main.py *)

Module Main.
Import Py State ErrorHandlerPy.
Local Open Scope string_scope.

(** *** Constants *)

Definition MAX_RETRIES : nat := 3.
Definition INITIAL_RETRY_DELAY : Q := 5.
Definition MAX_RETRY_DELAY : Q := 300.
Definition DEFAULT_PAGINATION_LIMIT : Z := 100.
Definition MAX_CONCURRENT_DOWNLOADS : Z := 5.

(** *** Telegram messages, as far as the code reads them *)

(** The value of an attribute field: a [bool], or anything else
    ([None] included). *)
Inductive flag_value : Type :=
| FlagBool (b : bool)
| FlagOther.

(** A document attribute: [None] in a field means the attribute object
    has no such field ([hasattr] is false). *)
Record DocumentAttribute : Type := mkAttr {
  attr_voice : option flag_value;
  attr_round_message : option flag_value;
  attr_file_name : option string
}.

(** [message.media] when it is set: a photo, a document (always carrying
    its attribute list), or any other media class. *)
Inductive MessageMedia : Type :=
| MessageMediaPhoto
| MessageMediaDocument (attributes : list DocumentAttribute)
| MessageMediaOther.

(** What the dispatcher reads of a media object: [getattr(obj, "size", 0)]. *)
Record MediaObject : Type := mkMediaObject {
  mo_size : option Z
}.

(** A message: [id], [media], [date] and the four accessors the
    dispatcher picks the media object from. *)
Record Message : Type := mkMessage {
  msg_id : Z;
  msg_media : option MessageMedia;
  msg_date : Z;
  msg_photo : option MediaObject;
  msg_voice : option MediaObject;
  msg_video_note : option MediaObject;
  msg_document : option MediaObject
}.

(** *** get_media_type *)

(** The [for attr in doc.attributes] loop. *)
Fixpoint scan_attributes (attributes : list DocumentAttribute) : string :=
  match attributes with
  | [] => "document"
  | attr :: rest =>
      match attr_voice attr with
      | Some (FlagBool voice) => if voice then "voice" else "audio"
      | _ =>
          match attr_round_message attr with
          | Some (FlagBool round_message) =>
              if round_message then "video_note" else "video"
          | _ => scan_attributes rest
          end
      end
  end.

Definition get_media_type (message : Message) : option string :=
  match msg_media message with
  | None => None
  | Some MessageMediaPhoto => Some "photo"
  | Some (MessageMediaDocument attributes) => Some (scan_attributes attributes)
  | Some MessageMediaOther => None
  end.

(** An attribute neither of whose two flags is a bool. *)
Definition no_flag (a : DocumentAttribute) : Prop :=
  (forall b, attr_voice a <> Some (FlagBool b))
  /\ (forall b, attr_round_message a <> Some (FlagBool b)).

(** *** _can_download *)

(** A value of the [file_formats] dict: a list of strings, or something
    that is not a list. *)
Inductive formats_value : Type :=
| FormatsList (allowed_formats : list string)
| FormatsNotList.

(** [file_format not in allowed_formats]: [None] is in no list of strings. *)
Definition format_in (file_format : option string) (allowed_formats : list string)
  : bool :=
  match file_format with
  | Some f => bool_decide (f ∈ allowed_formats)
  | None => false
  end.

Definition _can_download (_type : string) (file_formats : gmap string formats_value)
    (file_format : option string) : bool :=
  if bool_decide (_type ∈ ["audio"; "document"; "video"]) then
    match file_formats !! _type with
    | None => false
    | Some FormatsNotList => false
    | Some (FormatsList []) => false
    | Some (FormatsList (first :: rest)) =>
        if negb (format_in file_format (first :: rest))
           && negb (String.eqb first "all")
        then false else true
    end
  else true.

(** *** The dispatcher *)

(** [min(MAX_RETRY_DELAY, (2 ** retry) * INITIAL_RETRY_DELAY + random.uniform(0, 1))]. *)
Definition wait_time (retry : nat) (jitter : Q) : Q :=
  Qmin MAX_RETRY_DELAY
    (inject_Z (2 ^ Z.of_nat retry) * INITIAL_RETRY_DELAY + jitter)%Q.

(** What the outside world does during one pass of the retry loop. *)
Record AttemptEnv : Type := mkEnv {
  (** [await _get_media_meta(media_obj, _type, download_directory)] *)
  env_media_meta : result (string * option string);
  (** [_is_exist(file_name)] *)
  env_is_exist : string -> bool;
  (** [get_next_name(file_name)] *)
  env_next_name : string -> string;
  (** [await client.download_media(message, file=file_name, ...)] *)
  env_download : string -> result (option string);
  (** [manage_duplicate_file(download_path)] *)
  env_reconcile : string -> result string;
  (** [os.path.exists(download_path)] *)
  env_exists : string -> bool;
  (** [os.path.getsize(download_path)] *)
  env_getsize : string -> result Z;
  (** [random.uniform(0, 1)] *)
  env_jitter : Q;
  (** [await client.get_messages(message.chat.id, ids=message.id)] *)
  env_refetch : result (list Message)
}.

(** How the body of the [try] leaves: by [return message.id] or by
    running into the [break]. *)
Inductive body_exit : Type := ReturnId | Break.

(** The truth value of a path: [None] and the empty string are false. *)
Definition truthy_path (download_path : option string) : bool :=
  match download_path with
  | Some p => negb (String.eqb p "")
  | None => false
  end.

(** The body of the [try] block. *)
Definition attempt_body (env : AttemptEnv) (message : Message)
    (media_types : list string) (file_formats : gmap string formats_value)
    (state : DownloadState) : result (body_exit * DownloadState) :=
  match get_media_type message with
  | None => Ok (ReturnId, state)
  | Some _type =>
      if negb (bool_decide (_type ∈ media_types)) then Ok (ReturnId, state)
      else
        let media_obj :=
          if String.eqb _type "photo" then msg_photo message
          else if String.eqb _type "voice" then msg_voice message
          else if String.eqb _type "video_note" then msg_video_note message
          else msg_document message in
        match media_obj with
        | None => Ok (ReturnId, state)
        | Some media_obj =>
            let! meta := env_media_meta env in
            let file_name := fst meta in
            let file_format := snd meta in
            if _can_download _type file_formats file_format then
              let file_size := default 0 (mo_size media_obj) in
              let file_name :=
                if env_is_exist env file_name
                then env_next_name env file_name else file_name in
              let! download_path := env_download env file_name in
              let! download_path :=
                match download_path with
                | Some p =>
                    if truthy_path download_path
                    then (let! p' := env_reconcile env p in Ok (Some p'))
                    else Ok download_path
                | None => Ok download_path
                end in
              match download_path with
              | Some p =>
                  if truthy_path download_path then
                    if env_exists env p then
                      let! actual_file_size := env_getsize env p in
                      Ok (Break,
                          mark_downloaded (msg_id message) actual_file_size state)
                    else
                      Ok (Break, mark_downloaded (msg_id message) file_size state)
                  else Ok (Break, state)
              | None => Ok (Break, state)
              end
            else Ok (Break, state)
        end
  end.

(** How a call of the dispatcher ended: the [try] body completed, a
    failure was final, or the loop ran out without either. *)
Inductive ending : Type :=
| Completed (exit : body_exit)
| Failed (e : PyExc)
| Exhausted.

(** The mutable objects and the observable effects of a run. *)
Record Run : Type := mkRun {
  run_state : DownloadState;
  run_handler : option ErrorHandler;
  (** arguments of [asyncio.sleep], in order *)
  run_sleeps : list Q;
  (** every [wait_time] computed, in order *)
  run_waits : list Q;
  (** calls of [client.get_messages] for a refetch *)
  run_refetches : nat
}.

Definition new_run (state : DownloadState) (error_handler : option ErrorHandler)
  : Run :=
  {| run_state := state; run_handler := error_handler;
     run_sleeps := []; run_waits := []; run_refetches := 0 |}.

(** [error_handler.handle_error(e, message_id=..., logger=logger, ...)]
    when a handler was passed; the logger fallback has no effect here. *)
Definition report (r : Run) (e : PyExc) (message_id : Z) (critical : bool) : Run :=
  {| run_state := run_state r;
     run_handler :=
       option_map
         (fun h => fst (handle_error h e (Some message_id) true critical))
         (run_handler r);
     run_sleeps := run_sleeps r; run_waits := run_waits r;
     run_refetches := run_refetches r |}.

Definition with_state (r : Run) (state : DownloadState) : Run :=
  {| run_state := state; run_handler := run_handler r;
     run_sleeps := run_sleeps r; run_waits := run_waits r;
     run_refetches := run_refetches r |}.

Definition fail (r : Run) (message_id : Z) : Run :=
  with_state r (mark_failed message_id (run_state r)).

Definition add_wait (r : Run) (w : Q) : Run :=
  {| run_state := run_state r; run_handler := run_handler r;
     run_sleeps := run_sleeps r; run_waits := run_waits r ++ [w];
     run_refetches := run_refetches r |}.

Definition sleep (r : Run) (w : Q) : Run :=
  {| run_state := run_state r; run_handler := run_handler r;
     run_sleeps := run_sleeps r ++ [w]; run_waits := run_waits r;
     run_refetches := run_refetches r |}.

Definition count_refetch (r : Run) : Run :=
  {| run_state := run_state r; run_handler := run_handler r;
     run_sleeps := run_sleeps r; run_waits := run_waits r;
     run_refetches := S (run_refetches r) |}.

(** What a call hands back: the value returned or the exception that
    left the function, how it ended, and the run. *)
Record Outcome : Type := mkOutcome {
  out_result : result Z;
  out_ended : ending;
  out_run : Run
}.

(** [for retry in range(MAX_RETRIES): try: ... except ...] followed by
    [return message.id]; [retries] is what is left of the range and
    [last] how the previous pass ended. *)
Fixpoint retry_loop (retries : list nat) (env : nat -> AttemptEnv)
    (message : Message) (media_types : list string)
    (file_formats : gmap string formats_value) (last : ending) (r : Run)
  : Outcome :=
  match retries with
  | [] => mkOutcome (Ok (msg_id message)) last r
  | retry :: rest =>
      match attempt_body (env retry) message media_types file_formats
              (run_state r) with
      | Ok (exit, state) =>
          mkOutcome (Ok (msg_id message)) (Completed exit) (with_state r state)
      | Raise e =>
          match exc_isinstance e with
          | FileReferenceExpiredErrorC =>
              let r := report r e (msg_id message) false in
              if (retry <? MAX_RETRIES - 1)%nat then
                let r := count_refetch r in
                match env_refetch (env retry) with
                | Ok messages =>
                    let message :=
                      match messages with
                      | m :: _ => m
                      | [] => message
                      end in
                    retry_loop rest env message media_types file_formats last r
                | Raise refetch_error =>
                    let r := report r refetch_error (msg_id message) false in
                    mkOutcome (Ok (msg_id message)) (Failed refetch_error)
                      (fail r (msg_id message))
                end
              else
                retry_loop rest env message media_types file_formats
                  (Failed e) (fail r (msg_id message))
          | TimeoutErrorC =>
              let w := wait_time retry (env_jitter (env retry)) in
              let r := add_wait r w in
              let r := report r e (msg_id message) false in
              if (retry <? MAX_RETRIES - 1)%nat then
                retry_loop rest env message media_types file_formats last
                  (sleep r w)
              else
                retry_loop rest env message media_types file_formats
                  (Failed e) (fail r (msg_id message))
          | BadRequestErrorC =>
              let r := report r e (msg_id message) false in
              mkOutcome (Ok (msg_id message)) (Failed e) (fail r (msg_id message))
          | ExceptionC =>
              let r := report r e (msg_id message) true in
              mkOutcome (Ok (msg_id message)) (Failed e) (fail r (msg_id message))
          end
      end
  end.

Definition _download_media_internal (env : nat -> AttemptEnv) (message : Message)
    (media_types : list string) (file_formats : gmap string formats_value)
    (state : DownloadState) (error_handler : option ErrorHandler) : Outcome :=
  retry_loop (seq 0 MAX_RETRIES) env message media_types file_formats
    Exhausted (new_run state error_handler).

(** [download_media]: with or without a semaphore the call is the same;
    the permit is held for its duration and released on every exit. *)
Definition download_media (env : nat -> AttemptEnv) (message : Message)
    (media_types : list string) (file_formats : gmap string formats_value)
    (state : DownloadState) (download_semaphore : option Z)
    (error_handler : option ErrorHandler) : Outcome :=
  match download_semaphore with
  | Some _ =>
      _download_media_internal env message media_types file_formats state
        error_handler
  | None =>
      _download_media_internal env message media_types file_formats state
        error_handler
  end.

(** The client answers a refetch with the message asked for: every
    message it returns first carries the id [i]. *)
Definition refetch_keeps_id (env : nat -> AttemptEnv) (i : Z) : Prop :=
  forall k m ms, env_refetch (env k) = Ok (m :: ms) -> msg_id m = i.

(** Pass [k] of the retry loop raises a [TimeoutError] from the [try] body. *)
Definition times_out (env : nat -> AttemptEnv) (message : Message)
    (media_types : list string) (file_formats : gmap string formats_value)
    (state : DownloadState) (k : nat) : Prop :=
  exists e,
    attempt_body (env k) message media_types file_formats state = Raise e
    /\ exc_isinstance e = TimeoutErrorC.

(** *** process_messages *)

Local Open Scope Z_scope.
Local Open Scope list_scope.

(** The downloads of a batch.  [asyncio.gather] runs them concurrently;
    each mutation of the shared state happens between two suspension
    points, and the model runs the downloads one after the other in batch
    order.  [world] gives, per message id and pass of the retry loop, what
    the outside does.  An exception leaving a download leaves [gather]. *)
Fixpoint gather (world : Z -> nat -> AttemptEnv) (messages : list Message)
    (media_types : list string) (file_formats : gmap string formats_value)
    (state : DownloadState) (download_semaphore : option Z)
    (error_handler : option ErrorHandler)
  : result (list Z * DownloadState * option ErrorHandler) :=
  match messages with
  | [] => Ok ([], state, error_handler)
  | message :: rest =>
      let o := download_media (world (msg_id message)) message media_types
                 file_formats state download_semaphore error_handler in
      let! message_id := out_result o in
      let! tail := gather world rest media_types file_formats
                     (run_state (out_run o)) download_semaphore
                     (run_handler (out_run o)) in
      Ok (message_id :: fst (fst tail), snd (fst tail), snd tail)
  end.

(** [process_messages] without an export file: the largest id returned. *)
Definition process_messages (world : Z -> nat -> AttemptEnv)
    (messages : list Message) (media_types : list string)
    (file_formats : gmap string formats_value) (state : DownloadState)
    (download_semaphore : option Z) (error_handler : option ErrorHandler)
  : result (Z * DownloadState * option ErrorHandler) :=
  let! g := gather world messages media_types file_formats state
              download_semaphore error_handler in
  let! last_message_id := py_max (fst (fst g)) in
  Ok (last_message_id, snd (fst g), snd g).

(** *** begin_import *)

(** The configuration keys the scan reads and writes. *)
Record Config : Type := mkConfig {
  last_read_message_id : Z;
  ids_to_retry : list Z;
  media_types : list string;
  file_formats : gmap string formats_value;
  start_date : option Z;
  end_date : option Z;
  max_messages : option Z
}.

Definition set_last_read (config : Config) (i : Z) : Config :=
  {| last_read_message_id := i; ids_to_retry := ids_to_retry config;
     media_types := media_types config; file_formats := file_formats config;
     start_date := start_date config; end_date := end_date config;
     max_messages := max_messages config |}.

(** [update_config]: the retry list is recomputed into the dict (which
    [ConfigManager.update_config] mutates) and the dict is saved. *)
Definition update_config (config : Config) (state : DownloadState) : Config :=
  {| last_read_message_id := last_read_message_id config;
     ids_to_retry := get_retry_ids state (ids_to_retry config);
     media_types := media_types config; file_formats := file_formats config;
     start_date := start_date config; end_date := end_date config;
     max_messages := max_messages config |}.

(** The local variables of [begin_import] during the scan, with two
    records of what it did: the batches handed to [process_messages] and
    the configurations saved. *)
Record Scan : Type := mkScan {
  sc_config : Config;
  sc_messages_list : list Message;
  sc_pagination_count : Z;
  sc_total_messages : Z;
  sc_skipped_messages : Z;
  sc_last_read_message_id : Z;
  sc_state : DownloadState;
  sc_error_handler : ErrorHandler;
  sc_batches : list (list Message);
  sc_saved : list Config
}.

(** [if max_messages and len(state.downloaded_ids) >= max_messages]. *)
Definition cap_reached (config : Config) (state : DownloadState) : bool :=
  match max_messages config with
  | Some n =>
      negb (n =? 0) && (n <=? Z.of_nat (length (downloaded_ids state)))
  | None => false
  end.

(** The body of [async for message in messages_iter]; [stream] is what
    the iterator yields.  Leaving the [Fixpoint] early is the [break]. *)
Fixpoint scan_messages (world : Z -> nat -> AttemptEnv) (pagination_limit : Z)
    (stream : list Message) (s : Scan) : result Scan :=
  match stream with
  | [] => Ok s
  | message :: rest =>
      let total := sc_total_messages s + 1 in
      let config := sc_config s in
      if match end_date config with
         | Some d => d <? msg_date message
         | None => false
         end
      then
        scan_messages world pagination_limit rest
          (mkScan config (sc_messages_list s) (sc_pagination_count s) total
             (sc_skipped_messages s + 1) (sc_last_read_message_id s)
             (sc_state s) (sc_error_handler s) (sc_batches s) (sc_saved s))
      else if match start_date config with
              | Some d => msg_date message <? d
              | None => false
              end
      then
        Ok (mkScan config (sc_messages_list s) (sc_pagination_count s) total
              (sc_skipped_messages s) (sc_last_read_message_id s)
              (sc_state s) (sc_error_handler s) (sc_batches s) (sc_saved s))
      else if negb (sc_pagination_count s =? pagination_limit) then
        scan_messages world pagination_limit rest
          (mkScan config (sc_messages_list s ++ [message])
             (sc_pagination_count s + 1) total
             (sc_skipped_messages s) (sc_last_read_message_id s)
             (sc_state s) (sc_error_handler s) (sc_batches s) (sc_saved s))
      else
        let! p := process_messages world (sc_messages_list s)
                    (media_types config) (file_formats config) (sc_state s)
                    (Some MAX_CONCURRENT_DOWNLOADS)
                    (Some (sc_error_handler s)) in
        let last := fst (fst p) in
        let state := snd (fst p) in
        let handler := default (sc_error_handler s) (snd p) in
        let batches := sc_batches s ++ [sc_messages_list s] in
        if cap_reached config state then
          Ok (mkScan config (sc_messages_list s) (sc_pagination_count s) total
                (sc_skipped_messages s) last state handler batches (sc_saved s))
        else
          let config := set_last_read config last in
          let saved_config :=
            if Z.of_nat (length (downloaded_ids state)) mod 50 =? 0
            then Some (update_config config state) else None in
          scan_messages world pagination_limit rest
            (mkScan (default config saved_config) [message] 0 total
               (sc_skipped_messages s) last state handler batches
               (sc_saved s ++ option_list saved_config))
  end.

(** What [begin_import] returns, with the two records of the scan. *)
Record ImportResult : Type := mkImportResult {
  res_config : Config;
  res_summary : Models.DownloadSummary;
  res_batches : list (list Message);
  res_saved : list Config
}.

(** [begin_import] from the point where the client is connected.
    [retry_messages] is what [client.get_messages] returns for the retry
    ids, [stream] what [client.iter_messages] yields, [duration] the
    elapsed time. *)
Definition begin_import (world : Z -> nat -> AttemptEnv) (config : Config)
    (pagination_limit : Z) (retry_messages stream : list Message)
    (duration : Q) : result ImportResult :=
  let seeded :=
    match ids_to_retry config with
    | [] => []
    | _ :: _ => retry_messages
    end in
  let s0 := mkScan config seeded (Z.of_nat (length seeded)) 0 0
              (last_read_message_id config) new_state new_handler [] [] in
  let! s := scan_messages world pagination_limit stream s0 in
  let! s :=
    match sc_messages_list s with
    | [] => Ok s
    | _ :: _ =>
        let! p := process_messages world (sc_messages_list s)
                    (media_types (sc_config s)) (file_formats (sc_config s))
                    (sc_state s) (Some MAX_CONCURRENT_DOWNLOADS)
                    (Some (sc_error_handler s)) in
        Ok (mkScan (sc_config s) (sc_messages_list s) (sc_pagination_count s)
              (sc_total_messages s) (sc_skipped_messages s) (fst (fst p))
              (snd (fst p)) (default (sc_error_handler s) (snd p))
              (sc_batches s ++ [sc_messages_list s]) (sc_saved s))
    end in
  let config :=
    update_config (set_last_read (sc_config s) (sc_last_read_message_id s))
      (sc_state s) in
  Ok {| res_config := config;
        res_summary :=
          {| Models.total_messages := sc_total_messages s;
             Models.successful_downloads :=
               Z.of_nat (length (downloaded_ids (sc_state s)));
             Models.failed_downloads :=
               Z.of_nat (length (failed_ids (sc_state s)));
             Models.skipped_messages := sc_skipped_messages s;
             Models.total_size_bytes := total_size_bytes (sc_state s);
             Models.duration_seconds := duration |};
        res_batches := sc_batches s;
        res_saved := sc_saved s ++ [config] |}.

(** A message without media, and the messages with ids [first], ...,
    [first + n - 1] of that kind. *)
Definition text_message (i : Z) : Message :=
  mkMessage i None 0 None None None None.

Definition text_messages (first : Z) (n : nat) : list Message :=
  map (fun k => text_message (first + Z.of_nat k)) (seq 0 n).

(** Concrete inputs: a photo message, an attempt in which the download
    raises [e], and a document whose second attribute carries both flags. *)
Definition photo_message (i : Z) : Message :=
  mkMessage i (Some MessageMediaPhoto) 0 (Some (mkMediaObject None))
    None None None.

Definition download_raises (e : PyExc) (jitter : Q) : AttemptEnv :=
  mkEnv (Ok ("/out/photo/photo_7.jpg", Some "jpg")) (fun _ => false)
    (fun p => p) (fun _ => Raise e) (fun p => Ok p) (fun _ => true)
    (fun _ => Ok 0) jitter (Ok []).

Definition timeout_error : PyExc := mkExc "TimeoutError" TimeoutErrorC.
Definition os_error : PyExc := mkExc "OSError" ExceptionC.

Definition both_flags_document : Message :=
  mkMessage 9
    (Some (MessageMediaDocument
             [ mkAttr None None (Some "a.ogg");
               mkAttr (Some (FlagBool false)) (Some (FlagBool true)) None;
               mkAttr None (Some (FlagBool true)) None ]))
    0 None None None None.

End Main.

(** ** utils/state.py: what a run of marks adds up to *)

Module StateAccounting.
Import State.

(** The size given with the first [mark_downloaded] of the id [i] in a
    run of calls, if there is one. *)
Fixpoint first_size (ops : list mark_op) (i : Z) : option Z :=
  match ops with
  | [] => None
  | MarkDownloaded j n :: ops' =>
      if decide (j = i) then Some n else first_size ops' i
  | MarkFailed _ :: ops' => first_size ops' i
  end.

Definition sum_Z (l : list Z) : Z := foldr Z.add 0 l.

(** The sizes the run hands to [mark_downloaded]. *)
Definition sizes_given (ops : list mark_op) : list Z :=
  omap (fun o => match o with
                 | MarkDownloaded _ n => Some n
                 | MarkFailed _ => None
                 end) ops.

End StateAccounting.



(** ** main.py: what the scan of [begin_import] does with a stream *)

Module ScanSpec.
Import Py State ErrorHandlerPy Main.
Local Open Scope Z_scope.

(** [end_date and message.date > end_date]. *)
Definition after_end (end_date : option Z) (message : Message) : bool :=
  match end_date with
  | Some d => d <? msg_date message
  | None => false
  end.

(** [start_date and message.date < start_date]. *)
Definition before_start (start_date : option Z) (message : Message) : bool :=
  match start_date with
  | Some d => msg_date message <? d
  | None => false
  end.

(** The messages of the stream the loop gets past: all of them up to,
    and without, the first one that is not after the end date and lies
    before the start date. *)
Fixpoint scanned (start_date end_date : option Z) (stream : list Message)
  : list Message :=
  match stream with
  | [] => []
  | message :: rest =>
      if after_end end_date message
      then message :: scanned start_date end_date rest
      else if before_start start_date message then []
      else message :: scanned start_date end_date rest
  end.

(** Whether a message before the start date ended the scan. *)
Definition stopped (start_date end_date : option Z) (stream : list Message)
  : bool :=
  (length (scanned start_date end_date stream) <? length stream)%nat.

(** The scanned messages that are batched, and those that are skipped. *)
Definition kept (end_date : option Z) (l : list Message) : list Message :=
  List.filter (fun m => negb (after_end end_date m)) l.

Definition skipped (end_date : option Z) (l : list Message) : list Message :=
  List.filter (after_end end_date) l.

(** The messages the retry seed puts into the first batch. *)
Definition seeded (config : Config) (retry_messages : list Message)
  : list Message :=
  match ids_to_retry config with
  | [] => []
  | _ :: _ => retry_messages
  end.

(** The client answers every refetch with the message asked for. *)
Definition honest_world (world : Z -> nat -> AttemptEnv) : Prop :=
  forall i, refetch_keeps_id (world i) i.

(** The size a batch has when it is dispatched inside the loop: the
    first holds [pagination_limit] messages, every later one one more. *)
Definition full_size (pagination_limit : Z) (i : nat) : Z :=
  match i with
  | O => pagination_limit
  | S _ => pagination_limit + 1
  end.

(** The batches dispatched so far are full, and the counter lags the
    batch at hand by one once a batch has been dispatched. *)
Definition counted (limit : Z) (s : Scan) : Prop :=
  (forall i b, sc_batches s !! i = Some b ->
     Z.of_nat (length b) = full_size limit i)
  /\ Z.of_nat (length (sc_messages_list s))
     = sc_pagination_count s
       + match sc_batches s with [] => 0 | _ :: _ => 1 end
  /\ 0 <= sc_pagination_count s <= limit.

(** An attempt in which everything works: the file is written, kept by
    the reconciliation and 2048 bytes long. *)
Definition download_ok : AttemptEnv :=
  mkEnv (Ok ("/out/photo/photo.jpg", Some "jpg")) (fun _ => false)
    (fun p => p) (fun p => Ok (Some p)) (fun p => Ok p) (fun _ => true)
    (fun _ => Ok 2048) 0 (Ok []).

End ScanSpec.

(** ** main.py: the state [begin_import] ends with *)

Module ScanFinal.
Import Py State ErrorHandlerPy Main.
Local Open Scope Z_scope.

(** [begin_import] up to the point where it disconnects: the scan and
    the dispatch of the trailing batch. *)
Definition import_scan (world : Z -> nat -> AttemptEnv) (config : Config)
    (pagination_limit : Z) (retry_messages stream : list Message)
  : result Scan :=
  let seeded :=
    match ids_to_retry config with
    | [] => []
    | _ :: _ => retry_messages
    end in
  let s0 := mkScan config seeded (Z.of_nat (length seeded)) 0 0
              (last_read_message_id config) new_state new_handler [] [] in
  let! s := scan_messages world pagination_limit stream s0 in
  match sc_messages_list s with
  | [] => Ok s
  | _ :: _ =>
      let! p := process_messages world (sc_messages_list s)
                  (media_types (sc_config s)) (file_formats (sc_config s))
                  (sc_state s) (Some MAX_CONCURRENT_DOWNLOADS)
                  (Some (sc_error_handler s)) in
      Ok (mkScan (sc_config s) (sc_messages_list s) (sc_pagination_count s)
            (sc_total_messages s) (sc_skipped_messages s) (fst (fst p))
            (snd (fst p)) (default (sc_error_handler s) (snd p))
            (sc_batches s ++ [sc_messages_list s]) (sc_saved s))
  end.

(** The retry list of the configuration at hand is the law of
    [get_retry_ids] applied to the original list [previous] and to some
    earlier contents of the two id lists. *)
Definition retry_snapshot (previous : list Z) (s : Scan) : Prop :=
  exists D F : gset Z,
    D ⊆ list_to_set (downloaded_ids (sc_state s))
    /\ F ⊆ list_to_set (failed_ids (sc_state s))
    /\ (list_to_set (ids_to_retry (sc_config s)) : gset Z)
       = (list_to_set previous ∖ D) ∪ F.

End ScanFinal.

(** ** utils/file_management.py: [get_next_name] *)

Module NextName.
Import FileManagement.
Local Open Scope string_scope.

(** [name.lstrip(".")]. *)
Fixpoint lstrip_dots (l : list ascii) : list ascii :=
  match l with
  | [] => []
  | x :: l' => if Ascii.eqb x "." then lstrip_dots l' else l
  end.

(** [name.endswith(".")]. *)
Fixpoint ends_with_dot (l : list ascii) : bool :=
  match l with
  | [] => false
  | [x] => Ascii.eqb x "."
  | _ :: l' => ends_with_dot l'
  end.

(** [posix_path.suffixes]: none when the name ends with a dot; otherwise
    the leading dots are stripped, the name is split at its dots, and
    every piece but the first is a suffix. *)
Definition suffixes (p : string) : list string :=
  let n := list_ascii_of_string (name p) in
  if ends_with_dot n then []
  else map (fun s => "." ++ string_of_list_ascii s)
         (tail (split_on "." (lstrip_dots n))).

(** [os.path.isfile]. *)
Definition isfile (fs : FileSystem) (p : string) : bool :=
  match fs_find fs p with
  | Some _ => true
  | None => false
  end.

(** [new_file_name.format(parent, stem, counter, suffixes joined)] with
    [new_file_name = os.path.join("{0}", "{1}-copy{2}{3}")]. *)
Definition new_file_name (file_path : string) (counter : Z) : string :=
  parent file_path ++ "/" ++ stem file_path ++ "-copy" ++ pretty counter
  ++ String.concat "" (suffixes file_path).

(** The [while os.path.isfile(...)] loop: the counter it stops at.
    [fuel] bounds the number of tests. *)
Fixpoint next_counter (fuel : nat) (fs : FileSystem) (file_path : string)
    (counter : Z) : option Z :=
  match fuel with
  | O => None
  | S fuel' =>
      if isfile fs (new_file_name file_path counter)
      then next_counter fuel' fs file_path (counter + 1)
      else Some counter
  end.

(** [get_next_name]: one test more than there are files is enough. *)
Definition get_next_name (fs : FileSystem) (file_path : string)
  : option string :=
  match next_counter (S (length fs)) fs file_path 1 with
  | Some counter => Some (new_file_name file_path counter)
  | None => None
  end.

(** A name [base.e1.e2...] written out from its pieces. *)
Definition dotted (exts : list string) : list string :=
  map (fun e => "." ++ e) exts.

Definition flat (exts : list string) : list ascii :=
  List.concat (map (fun e => "."%char :: list_ascii_of_string e) exts).

Definition dot_free (s : string) : Prop :=
  "."%char ∉ list_ascii_of_string s.

End NextName.

(** ** utils/message_export.py *)

Module MessageExport.
Import Main.
Local Open Scope string_scope.

(** What [serialize_message] reads of a message besides its [id], [date]
    and [media]. *)
Record MessageView : Type := mkView {
  view_message : Message;
  view_text : option string;
  view_sender_id : option Z;
  view_chat_id : option Z;
  view_views : option Z;
  view_forwards : option Z;
  view_is_reply : bool;
  view_reply_to_msg_id : option Z
}.

(** The dict [serialize_message] builds, by key.  The date stands for its
    ISO text. *)
Record Entry : Type := mkEntry {
  entry_message_id : Z;
  entry_date : option Z;
  entry_text : string;
  entry_sender_id : option Z;
  entry_chat_id : option Z;
  entry_media_type : option string;
  entry_media_file_name : option string;
  entry_views : Z;
  entry_forwards : Z;
  entry_is_reply : bool;
  entry_reply_to_id : option Z
}.

(** [get_media_type_str]: the classification of [main.get_media_type],
    written out a second time in this module. *)
Definition get_media_type_str (message : Message) : option string :=
  match msg_media message with
  | None => None
  | Some MessageMediaPhoto => Some "photo"
  | Some (MessageMediaDocument attributes) => Some (scan_attributes attributes)
  | Some MessageMediaOther => None
  end.

(** The loop over [doc.attributes]: the first attribute with a
    [file_name] field decides. *)
Fixpoint first_file_name (attributes : list DocumentAttribute) : option string :=
  match attributes with
  | [] => None
  | attr :: rest =>
      match attr_file_name attr with
      | Some file_name => Some file_name
      | None => first_file_name rest
      end
  end.

Definition serialize_message (m : MessageView) : Entry :=
  let message := view_message m in
  mkEntry (msg_id message)
    (Some (msg_date message))
    (default "" (view_text m))
    (view_sender_id m)
    (view_chat_id m)
    (match msg_media message with
     | Some _ => get_media_type_str message
     | None => None
     end)
    (match msg_media message with
     | Some (MessageMediaDocument attributes) => first_file_name attributes
     | _ => None
     end)
    (default 0%Z (view_views m))
    (default 0%Z (view_forwards m))
    (view_is_reply m)
    (if view_is_reply m then view_reply_to_msg_id m else None).

(** What is at [file_path]: nothing, text that is not JSON, or a list of
    entries (JSON of another shape is left out). *)
Inductive ExportFile : Type :=
| Missing
| NotJson
| Entries (entries : list Entry).

(** [json.load] under [except (FileNotFoundError, json.JSONDecodeError)]. *)
Definition load (file : ExportFile) : list Entry :=
  match file with
  | Entries entries => entries
  | Missing | NotJson => []
  end.

(** The merge loop: [existing_ids] is built once, before the loop. *)
Definition merge (existing serialized : list Entry) : list Entry :=
  let existing_ids : gset Z := list_to_set (map entry_message_id existing) in
  fold_left
    (fun existing msg =>
       if bool_decide (entry_message_id msg ∉ existing_ids)
       then (existing ++ [msg])%list else existing)
    serialized existing.

(** [save_messages_to_json]: the entries written to [file_path]. *)
Definition save_messages_to_json (messages : list MessageView)
    (file : ExportFile) (append : bool) : list Entry :=
  let serialized := map serialize_message messages in
  if append then merge (load file) serialized else serialized.

(** The export file after the batches of a run, one call a batch. *)
Definition export_batches (batches : list (list MessageView))
    (file : ExportFile) : ExportFile :=
  fold_left (fun file messages =>
               Entries (save_messages_to_json messages file true))
    batches file.

Definition ids (entries : list Entry) : list Z := map entry_message_id entries.

Definition view_ids (messages : list MessageView) : list Z :=
  map (fun m => msg_id (view_message m)) messages.

(** The entries of a batch that the merge appends. *)
Definition fresh (existing serialized : list Entry) : list Entry :=
  List.filter (fun msg => bool_decide (entry_message_id msg ∉ ids existing))
    serialized.

Definition plain_view (i : Z) : MessageView :=
  mkView (mkMessage i None 0 None None None None) None None None None None
    false None.

End MessageExport.

(** ** main.py: [_get_media_meta] *)

Module MediaMeta.
Import FileManagement Main MessageExport.
Local Open Scope string_scope.

(** What [_get_media_meta] reads of a media object: [mime_type] ([None]
    when the object has no such field or the field is [None]), the ISO
    text of [date], [attributes] and [id] (each [None] when the object
    has no such field). *)
Record MediaInfo : Type := mkMediaInfo {
  mi_mime_type : option string;
  mi_date : string;
  mi_attributes : option (list DocumentAttribute);
  mi_id : option Z
}.

(** [path.endswith("/")]. *)
Fixpoint ends_with_sep (s : string) : bool :=
  match s with
  | "" => false
  | String x "" => Ascii.eqb x "/"
  | String _ s' => ends_with_sep s'
  end.

(** One round of the loop of [posixpath.join]. *)
Definition join_step (path b : string) : string :=
  if String.prefix "/" b then b
  else if String.eqb path "" || ends_with_sep path then path ++ b
  else path ++ "/" ++ b.

(** [os.path.join(a, *p)]. *)
Definition os_path_join (a : string) (p : list string) : string :=
  fold_left join_step p a.

(** [mime_type.split("/")[-1]]. *)
Definition last_piece (c : ascii) (l : list ascii) : list ascii :=
  List.last (split_on c l) [].

(** [s.replace(":", "-")]. *)
Definition replace_colons (s : string) : string :=
  string_of_list_ascii
    (map (fun x => if Ascii.eqb x ":" then "-"%char else x)
       (list_ascii_of_string s)).

(** The [file_format] of [_get_media_meta]. *)
Definition file_format_of (media_obj : MediaInfo) (_type : string)
  : option string :=
  match mi_mime_type media_obj with
  | Some mime_type =>
      if negb (String.eqb mime_type "")
      then Some (string_of_list_ascii
                   (last_piece "/" (list_ascii_of_string mime_type)))
      else if String.eqb _type "photo" then Some "jpg" else None
  | None => if String.eqb _type "photo" then Some "jpg" else None
  end.

(** [download_directory if download_directory else THIS_DIR]. *)
Definition base_dir_of (this_dir : string) (download_directory : option string)
  : string :=
  match download_directory with
  | Some d => if String.eqb d "" then this_dir else d
  | None => this_dir
  end.

(** The [file_name_base] of the branch for the other types. *)
Definition file_name_base_of (media_obj : MediaInfo) (_type : string) : string :=
  let file_name_base :=
    match mi_attributes media_obj with
    | Some attributes => default "" (first_file_name attributes)
    | None => ""
    end in
  if String.eqb file_name_base "" then
    match mi_id media_obj with
    | Some id => _type ++ "_" ++ pretty id
    | None => file_name_base
    end
  else file_name_base.

(** [_get_media_meta]: the file name and the file format.  In an
    f-string, [None] reads [None]. *)
Definition _get_media_meta (this_dir : string) (media_obj : MediaInfo)
    (_type : string) (download_directory : option string)
  : string * option string :=
  let file_format := file_format_of media_obj _type in
  let base_dir := base_dir_of this_dir download_directory in
  if String.eqb _type "voice" || String.eqb _type "video_note" then
    let timestamp := replace_colons (mi_date media_obj) in
    (os_path_join base_dir
       [_type; _type ++ "_" ++ timestamp ++ "." ++ default "None" file_format],
     file_format)
  else
    (os_path_join base_dir [_type; file_name_base_of media_obj _type],
     file_format).

(** A directory path as the setup yields it: not empty, no slash at the
    end. *)
Definition plain_dir (d : string) : Prop :=
  d <> "" /\ ends_with_sep d = false.

(** A document whose file name attribute is an absolute path. *)
Definition absolute_name_document : MediaInfo :=
  mkMediaInfo (Some "application/octet-stream") "2024-01-02T03:04:05+00:00"
    (Some [mkAttr None None (Some "/home/user/.profile")]) (Some 7%Z).

(** A voice note without a MIME type. *)
Definition bare_voice : MediaInfo :=
  mkMediaInfo None "2024-01-02T03:04:05+00:00" (Some []) (Some 7%Z).

End MediaMeta.

(** ** utils/models.py: [_format_size] *)

Module ModelsSize.
Import Models.
Local Open Scope string_scope.

(** The loop over [units]: the number and the unit that are printed (with
    two decimals, which are not modelled).  Floats are read as
    rationals. *)
Fixpoint scale (units : list string) (size : Q) : Q * string :=
  match units with
  | [] => (size, "PB")
  | unit :: rest =>
      if Qlt_le_dec size 1024 then (size, unit)
      else scale rest (size / 1024)%Q
  end.

Definition units : list string := ["B"; "KB"; "MB"; "GB"; "TB"].

Definition _format_size (self : DownloadSummary) : Q * string :=
  scale units (inject_Z (total_size_bytes self)).

(** [1024 ** k]. *)
Fixpoint kibi (k : nat) : Q :=
  match k with
  | O => 1
  | S k' => 1024 * kibi k'
  end.

End ModelsSize.

(** ** utils/validators.py *)

Module Validators.
Import Py.
Local Open Scope string_scope.

(** The values a configuration entry can hold, as far as the validators
    tell them apart: an [int], a [bool] (an [int] to [isinstance]), a
    [str], or anything else ([None] included). *)
Inductive PyVal : Type :=
| VInt (n : Z)
| VBool (b : bool)
| VStr (s : string)
| VOther.

(** [isinstance(v, int)], with the value as an integer. *)
Definition int_value (v : PyVal) : option Z :=
  match v with
  | VInt n => Some n
  | VBool b => Some (if b then 1 else 0)%Z
  | VStr _ | VOther => None
  end.

(** [s[1:]]. *)
Definition drop_first (s : string) : string :=
  match s with
  | "" => ""
  | String _ rest => rest
  end.

Section WithStr.

(** [str.strip], [str.isdigit] and [int(s)]; [None] stands for the
    [ValueError] that [int] raises. *)
Variable strip : string -> string.
Variable isdigit : string -> bool.
Variable py_int : string -> option Z.

(** [validate_chat_id].  Every exception it lets out is a [ValueError]:
    the [except] clause raises the one caught again or a new one. *)
Definition validate_chat_id (chat_id : PyVal) : result PyVal :=
  match chat_id with
  | VInt _ | VBool _ =>
      if decide (int_value chat_id = Some 0%Z) then Raise ValueError
      else Ok chat_id
  | VStr s =>
      let chat_id := strip s in
      if String.eqb chat_id "" then Raise ValueError
      else if String.prefix "@" chat_id then
        let username := drop_first chat_id in
        if String.eqb username "" then Raise ValueError
        else Ok (VStr username)
      else if negb (String.prefix "-" chat_id) && negb (isdigit chat_id)
      then Ok (VStr chat_id)
      else
        match py_int chat_id with
        | Some int_id =>
            if decide (int_id = 0%Z) then Raise ValueError
            else Ok (VInt int_id)
        | None => Raise ValueError
        end
  | VOther => Raise ValueError
  end.

(** [validate_api_id]: whatever the [try] block raises is raised again as
    a [ValueError]. *)
Definition validate_api_id (api_id : PyVal) : result PyVal :=
  let converted : result PyVal :=
    match api_id with
    | VStr s =>
        match py_int s with
        | Some n => Ok (VInt n)
        | None => Raise ValueError
        end
    | _ => Ok api_id
    end in
  match converted with
  | Ok api_id =>
      match int_value api_id with
      | Some n => if decide (n <= 0)%Z then Raise ValueError else Ok api_id
      | None => Raise ValueError
      end
  | Raise _ => Raise ValueError
  end.

End WithStr.

End Validators.

(** * Theorems *)

Set Warnings "-clear-no-such-hyp".

Module StateFacts.
Import State.

Lemma mark_downloaded_present i n st :
  i ∈ downloaded_ids st -> mark_downloaded i n st = st.
Proof. intros Hin. unfold mark_downloaded. by rewrite decide_True. Qed.

Lemma mark_failed_present i st :
  i ∈ failed_ids st -> mark_failed i st = st.
Proof. intros Hin. unfold mark_failed. by rewrite decide_True. Qed.

Lemma downloaded_ids_mark_downloaded i n st j :
  j ∈ downloaded_ids (mark_downloaded i n st) <-> j ∈ downloaded_ids st \/ j = i.
Proof.
  unfold mark_downloaded. case_decide; simpl.
  - split; [tauto | intros [H1 | ->]; done].
  - rewrite elem_of_app, list_elem_of_singleton. tauto.
Qed.

Lemma failed_ids_mark_failed i st j :
  j ∈ failed_ids (mark_failed i st) <-> j ∈ failed_ids st \/ j = i.
Proof.
  unfold mark_failed. case_decide; simpl.
  - split; [tauto | intros [H1 | ->]; done].
  - rewrite elem_of_app, list_elem_of_singleton. tauto.
Qed.

Lemma failed_ids_mark_downloaded i n st :
  failed_ids (mark_downloaded i n st) = failed_ids st.
Proof. unfold mark_downloaded. by case_decide. Qed.

Lemma downloaded_ids_mark_failed i st :
  downloaded_ids (mark_failed i st) = downloaded_ids st.
Proof. unfold mark_failed. by case_decide. Qed.

Lemma NoDup_snoc_fresh (l : list Z) (x : Z) :
  NoDup l -> x ∉ l -> NoDup (l ++ [x]).
Proof.
  intros Hl Hx. apply NoDup_app. split; [done |]. split.
  - intros y Hy Hy'. apply list_elem_of_singleton in Hy'. by subst.
  - apply NoDup_singleton.
Qed.

Lemma NoDup_mark_downloaded i n st :
  NoDup (downloaded_ids st) -> NoDup (downloaded_ids (mark_downloaded i n st)).
Proof.
  intros Hnd. unfold mark_downloaded. case_decide; simpl; [done |].
  by apply NoDup_snoc_fresh.
Qed.

Lemma NoDup_mark_failed i st :
  NoDup (failed_ids st) -> NoDup (failed_ids (mark_failed i st)).
Proof.
  intros Hnd. unfold mark_failed. case_decide; simpl; [done |].
  by apply NoDup_snoc_fresh.
Qed.

End StateFacts.

Module StateClaims.
Import State StateFacts.

Lemma run_marks_snoc ops o :
  run_marks (ops ++ [o]) = apply_mark (run_marks ops) o.
Proof. unfold run_marks. by rewrite fold_left_app. Qed.

Lemma run_marks_downloaded ops i :
  i ∈ downloaded_ids (run_marks ops) <-> exists n, MarkDownloaded i n ∈ ops.
Proof.
  induction ops as [| o ops IH] using rev_ind.
  - split; [intros H; inversion H | intros [n H]; inversion H].
  - rewrite run_marks_snoc. destruct o as [j m | j]; simpl.
    + rewrite downloaded_ids_mark_downloaded, IH. split.
      * intros [[n H] | ->]; [exists n | exists m]; set_solver.
      * intros [n H]. apply elem_of_app in H as [H | H]; [left; eauto |].
        apply list_elem_of_singleton in H. inversion H. by right.
    + rewrite downloaded_ids_mark_failed, IH. split.
      * intros [n H]. exists n. set_solver.
      * intros [n H]. apply elem_of_app in H as [H | H]; [eauto |].
        apply list_elem_of_singleton in H. inversion H.
Qed.

Lemma run_marks_failed ops i :
  i ∈ failed_ids (run_marks ops) <-> MarkFailed i ∈ ops.
Proof.
  induction ops as [| o ops IH] using rev_ind.
  - split; intros H; inversion H.
  - rewrite run_marks_snoc. destruct o as [j m | j]; simpl.
    + rewrite failed_ids_mark_downloaded, IH. split; [set_solver |].
      intros H. apply elem_of_app in H as [H | H]; [done |].
      apply list_elem_of_singleton in H. inversion H.
    + rewrite failed_ids_mark_failed, IH. split.
      * intros [H | ->]; set_solver.
      * intros H. apply elem_of_app in H as [H | H]; [by left |].
        apply list_elem_of_singleton in H. inversion H. by right.
Qed.

Lemma run_marks_NoDup ops :
  NoDup (downloaded_ids (run_marks ops)) /\ NoDup (failed_ids (run_marks ops)).
Proof.
  induction ops as [| o ops [IHd IHf]] using rev_ind.
  - split; apply NoDup_nil_2.
  - rewrite run_marks_snoc. destruct o as [j m | j]; simpl.
    + split; [by apply NoDup_mark_downloaded |].
      by rewrite failed_ids_mark_downloaded.
    + split; [by rewrite downloaded_ids_mark_failed |].
      by apply NoDup_mark_failed.
Qed.

(** C3.  The retry list computed by [get_retry_ids] is, as a set,
    (previous retry ids minus downloaded ids) union failed ids; every
    failed id is in it; an id of the previous list that was downloaded
    and did not fail is not in it; and for previous = 1,2,3,
    downloaded = 2, failed = 4 the result is the set 1,3,4. *)
Theorem get_retry_ids_set_law (st : DownloadState) (previous : list Z) :
  (list_to_set (get_retry_ids st previous) : gset Z)
    = (list_to_set previous ∖ list_to_set (downloaded_ids st))
        ∪ list_to_set (failed_ids st)
  /\ (forall i, i ∈ failed_ids st -> i ∈ get_retry_ids st previous)
  /\ (forall i, i ∈ previous -> i ∈ downloaded_ids st -> i ∉ failed_ids st ->
        i ∉ get_retry_ids st previous)
  /\ (forall n,
        (list_to_set (get_retry_ids (mkDownloadState [4] [2] n) [1; 2; 3])
           : gset Z) = {[1; 3; 4]}).
Proof.
  assert (Hset : forall s p,
    (list_to_set (get_retry_ids s p) : gset Z)
      = (list_to_set p ∖ list_to_set (downloaded_ids s))
          ∪ list_to_set (failed_ids s)).
  { intros s p. unfold get_retry_ids. rewrite list_to_set_app_L.
    f_equal. apply set_eq. intros x.
    rewrite elem_of_list_to_set, elem_of_elements. done. }
  split; [apply Hset |]. split; [| split].
  - intros i Hi. unfold get_retry_ids. apply elem_of_app. by right.
  - intros i Hp Hd Hf Hin. unfold get_retry_ids in Hin.
    apply elem_of_app in Hin as [Hin | Hin]; [| done].
    apply elem_of_elements in Hin. set_solver.
  - intros n. rewrite Hset. simpl. set_solver.
Qed.

(** C4, the claim as stated, fails: after [mark_downloaded 1] and then
    [mark_failed 1] on a fresh state the id 1 is in both lists. *)
Lemma marks_overlap_counterexample :
  1 ∈ downloaded_ids (run_marks [MarkDownloaded 1 10; MarkFailed 1])
  /\ 1 ∈ failed_ids (run_marks [MarkDownloaded 1 10; MarkFailed 1]).
Proof. vm_compute. split; apply list_elem_of_singleton; reflexivity. Qed.

(** C4, amended.  After any run of [mark_downloaded] and [mark_failed]
    calls on a fresh state, neither list holds an id twice; an id is in
    [downloaded_ids] exactly when it was given to [mark_downloaded] and
    in [failed_ids] exactly when it was given to [mark_failed], so an id
    is in both lists exactly when it was given to both methods; and
    marking an id already in the method's own list changes nothing
    (neither the lists nor [total_size_bytes]). *)
Theorem marks_invariant (ops : list mark_op) :
  NoDup (downloaded_ids (run_marks ops))
  /\ NoDup (failed_ids (run_marks ops))
  /\ (forall i, i ∈ downloaded_ids (run_marks ops)
                <-> exists n, MarkDownloaded i n ∈ ops)
  /\ (forall i, i ∈ failed_ids (run_marks ops) <-> MarkFailed i ∈ ops)
  /\ (forall i,
        (i ∈ downloaded_ids (run_marks ops) /\ i ∈ failed_ids (run_marks ops))
        <-> ((exists n, MarkDownloaded i n ∈ ops) /\ MarkFailed i ∈ ops))
  /\ (forall i n, i ∈ downloaded_ids (run_marks ops) ->
        mark_downloaded i n (run_marks ops) = run_marks ops)
  /\ (forall i, i ∈ failed_ids (run_marks ops) ->
        mark_failed i (run_marks ops) = run_marks ops).
Proof.
  destruct (run_marks_NoDup ops) as [Hd Hf].
  repeat split; try done.
  - by apply run_marks_downloaded.
  - by apply run_marks_downloaded.
  - by apply run_marks_failed.
  - by apply run_marks_failed.
  - apply run_marks_downloaded. tauto.
  - apply run_marks_failed. tauto.
  - apply run_marks_downloaded. tauto.
  - apply run_marks_failed. tauto.
  - intros. by apply mark_downloaded_present.
  - intros. by apply mark_failed_present.
Qed.

End StateClaims.

Module ModelsClaims.
Import Py Models.

Lemma truediv_raises a b : truediv a b = Raise ZeroDivisionError <-> b = 0.
Proof.
  unfold truediv. case_decide; split; intros H'; try done.
Qed.


End ModelsClaims.

Module ErrorHandlerClaims.
Import Py ErrorHandlerPy.
Local Open Scope string_scope.

Lemma apply_call_counts h c :
  error_count (apply_call h c)
    = error_count h + (if counts_error c then 1 else 0)
  /\ warnings_count (apply_call h c)
    = warnings_count h + (if counts_warning c then 1 else 0).
Proof.
  unfold apply_call, handle_error, counts_error, counts_warning.
  destruct (call_logger c); simpl; [| lia].
  destruct (books_error _ _); simpl; lia.
Qed.

Lemma fold_apply_call_counts calls h :
  error_count (fold_left apply_call calls h)
    = error_count h + Z.of_nat (length (List.filter counts_error calls))
  /\ warnings_count (fold_left apply_call calls h)
    = warnings_count h + Z.of_nat (length (List.filter counts_warning calls)).
Proof.
  revert h. induction calls as [| c calls IH]; intros h; simpl; [lia |].
  destruct (IH (apply_call h c)) as [IHe IHw].
  destruct (apply_call_counts h c) as [He Hw].
  rewrite IHe, IHw, He, Hw.
  destruct (counts_error c), (counts_warning c); simpl length; lia.
Qed.

Lemma get_summary_sentinel h :
  get_summary h = NO_ERRORS <-> error_count h = 0 /\ warnings_count h = 0.
Proof.
  unfold get_summary. case_decide as Hz; [tauto |].
  split; [| tauto]. intros Heq. exfalso.
  destruct (decide (error_count h > 0)), (decide (warnings_count h > 0));
    cbn in Heq; discriminate Heq.
Qed.

(** C9, the claim as stated, fails: a call of [handle_error] without a
    logger (the default) on a fresh handler increments no counter. *)
Lemma handle_error_no_logger_counterexample :
  error_count (run_calls [mkCall ValueError None false false]) = 0
  /\ warnings_count (run_calls [mkCall ValueError None false false]) = 0.
Proof. split; reflexivity. Qed.

(** C9, amended.  On a fresh handler, each call of [handle_error] that is
    given a logger increments exactly one counter -- the error counter
    when [critical] is set or the classified severity is ERROR, otherwise
    the warning counter -- and a call without a logger increments none.
    [get_summary] is the fixed sentinel exactly when both counters are
    zero; otherwise it is the error part, the warning part, or both
    joined by a comma and a space, each with singular or plural form. *)
Theorem handle_error_counters (calls : list handle_call) :
  error_count (run_calls calls)
    = Z.of_nat (length (List.filter counts_error calls))
  /\ warnings_count (run_calls calls)
    = Z.of_nat (length (List.filter counts_warning calls))
  /\ (forall h c, call_logger c = true ->
        apply_call h c =
          if call_critical c
             || String.eqb (get_severity (from_exception (call_exception c)))
                  "ERROR"
          then mkErrorHandler (error_count h + 1) (warnings_count h)
          else mkErrorHandler (error_count h) (warnings_count h + 1))
  /\ (forall h c, call_logger c = false -> apply_call h c = h)
  /\ (forall h, get_summary h = NO_ERRORS
                <-> error_count h = 0 /\ warnings_count h = 0)
  /\ (forall h, 0 < error_count h -> 0 < warnings_count h ->
        get_summary h
        = errors_part (error_count h) ++ ", "
            ++ warnings_part (warnings_count h))
  /\ (forall h, 0 < error_count h -> warnings_count h = 0 ->
        get_summary h = errors_part (error_count h))
  /\ (forall h, error_count h = 0 -> 0 < warnings_count h ->
        get_summary h = warnings_part (warnings_count h))
  /\ errors_part 1 = "❌ 1 error"
  /\ errors_part 2 = "❌ 2 errors"
  /\ warnings_part 1 = "⚠️ 1 warning"
  /\ warnings_part 3 = "⚠️ 3 warnings".
Proof.
  destruct (fold_apply_call_counts calls new_handler) as [He Hw].
  split; [exact He |]. split; [exact Hw |].
  split.
  { intros h c Hl. unfold apply_call, handle_error, books_error.
    rewrite Hl. by destruct (_ || _). }
  split.
  { intros h c Hl. unfold apply_call, handle_error. by rewrite Hl. }
  split; [apply get_summary_sentinel |].
  split.
  { intros h H1 H2. unfold get_summary.
    rewrite decide_False by lia.
    rewrite (decide_True (P := error_count h > 0)) by lia.
    rewrite (decide_True (P := warnings_count h > 0)) by lia.
    reflexivity. }
  split.
  { intros h H1 H2. unfold get_summary.
    rewrite decide_False by lia.
    rewrite (decide_True (P := error_count h > 0)) by lia.
    rewrite (decide_False (P := warnings_count h > 0)) by lia.
    reflexivity. }
  split.
  { intros h H1 H2. unfold get_summary.
    rewrite decide_False by lia.
    rewrite (decide_False (P := error_count h > 0)) by lia.
    rewrite (decide_True (P := warnings_count h > 0)) by lia.
    reflexivity. }
  repeat split; reflexivity.
Qed.

End ErrorHandlerClaims.

Module ClassifierClaims.
Import Py Main.
Local Open Scope string_scope.

Lemma scan_attributes_skip pre rest :
  Forall no_flag pre -> scan_attributes (pre ++ rest) = scan_attributes rest.
Proof.
  induction 1 as [| a pre [Hv Hr] _ IH]; [done |]. simpl.
  destruct (attr_voice a) as [[b |] |]; try (by destruct (Hv b));
    destruct (attr_round_message a) as [[b' |] |];
    try (by destruct (Hr b')); exact IH.
Qed.



End ClassifierClaims.

Module FormatClaims.
Import Py Main.
Local Open Scope string_scope.

(** C5.  [_can_download] is true for every kind other than audio,
    document and video; for these three it is false when the kind is
    missing from the policy or its value is empty or not a list, true
    when the first element of the list is all, and otherwise true
    exactly when the detected format is a member of the list (no format
    at all is a member of no list).  The three examples of the spec
    evaluate as stated. *)
Theorem can_download_policy :
  (forall k p f, k ∉ ["audio"; "document"; "video"] ->
     _can_download k p f = true)
  /\ (forall k p f, k ∈ ["audio"; "document"; "video"] ->
        (p !! k = None -> _can_download k p f = false)
        /\ (p !! k = Some FormatsNotList -> _can_download k p f = false)
        /\ (p !! k = Some (FormatsList []) -> _can_download k p f = false)
        /\ (forall rest, p !! k = Some (FormatsList ("all" :: rest)) ->
              _can_download k p f = true)
        /\ (forall first rest, p !! k = Some (FormatsList (first :: rest)) ->
              first <> "all" ->
              (_can_download k p f = true
               <-> exists x, f = Some x /\ x ∈ first :: rest))
        /\ (forall first rest, p !! k = Some (FormatsList (first :: rest)) ->
              first <> "all" -> _can_download k p None = false))
  /\ _can_download "video" {["video" := FormatsList ["all"]]} (Some "mkv") = true
  /\ _can_download "audio" {["audio" := FormatsList ["mp3"]]} (Some "wav") = false
  /\ (forall f, _can_download "photo" ∅ f = true).
Proof.
  split.
  { intros k p f Hk. unfold _can_download. by rewrite bool_decide_eq_false_2. }
  split.
  { intros k p f Hk. unfold _can_download. rewrite bool_decide_eq_true_2 by done.
    split; [by intros -> |]. split; [by intros -> |]. split; [by intros -> |].
    split; [intros rest ->; simpl; by rewrite andb_false_r |].
    assert (Hgen : forall first rest g, first <> "all" ->
      (if negb (format_in g (first :: rest)) && negb (String.eqb first "all")
       then false else true) = true
      <-> exists x, g = Some x /\ x ∈ first :: rest).
    { intros first rest g Hne.
      assert (String.eqb first "all" = false) as -> by by apply String.eqb_neq.
      rewrite andb_true_r. destruct g as [x |]; simpl.
      - destruct (bool_decide (x ∈ first :: rest)) eqn:E; simpl.
        + split; [| done]. intros _. exists x. split; [done |].
          by apply bool_decide_eq_true in E.
        + split; [done |]. intros (y & [= <-] & Hy).
          apply bool_decide_eq_false in E. done.
      - split; [done |]. by intros (y & Hy & _). }
    split.
    - intros first rest -> Hne. by apply Hgen.
    - intros first rest -> Hne.
      destruct (Hgen first rest None Hne) as [H1 _].
      simpl in *. match goal with |- ?x = false => destruct x eqn:E end; [| done].
      by destruct (H1 eq_refl) as (y & Hy & _). }
  split; [by vm_compute |]. split; [by vm_compute |].
  intros f. reflexivity.
Qed.

(** C5 at a concrete policy: an explicit list admits its members only. *)
Lemma can_download_policy_witness :
  _can_download "audio" {["audio" := FormatsList ["mp3"; "ogg"]]} (Some "ogg")
  = true.
Proof.
  destruct can_download_policy as (_ & H & _).
  destruct (H "audio" {["audio" := FormatsList ["mp3"; "ogg"]]} (Some "ogg"))
    as (_ & _ & _ & _ & Hmem & _).
  - set_solver.
  - apply (Hmem "mp3" ["ogg"]).
    + reflexivity.
    + discriminate.
    + exists "ogg". split; [reflexivity | set_solver].
Defined.

End FormatClaims.

Module DispatcherFacts.
Import Py State StateFacts ErrorHandlerPy Main.
Local Open Scope string_scope.

Lemma attempt_body_state env m mt ff st x st' :
  attempt_body env m mt ff st = Ok (x, st') ->
  st' = st \/ exists n, st' = mark_downloaded (msg_id m) n st.
Proof.
  unfold attempt_body, bind. intros H.
  repeat case_match; simplify_eq; eauto.
Qed.

Lemma failed_ids_attempt_body env m mt ff st x st' :
  attempt_body env m mt ff st = Ok (x, st') -> failed_ids st' = failed_ids st.
Proof.
  intros H. apply attempt_body_state in H as [-> | [n ->]]; [done |].
  apply failed_ids_mark_downloaded.
Qed.

Lemma retry_loop_seq n k env message mt ff last r :
  (k + n = MAX_RETRIES)%nat ->
  exists m',
    out_result (retry_loop (seq k n) env message mt ff last r) = Ok (msg_id m')
    /\ (refetch_keeps_id env (msg_id message) -> msg_id m' = msg_id message)
    /\ ((n = 0%nat
         /\ out_ended (retry_loop (seq k n) env message mt ff last r) = last
         /\ run_state (out_run (retry_loop (seq k n) env message mt ff last r))
            = run_state r)
        \/ (exists x st',
              out_ended (retry_loop (seq k n) env message mt ff last r)
              = Completed x
              /\ run_state (out_run (retry_loop (seq k n) env message mt ff last r))
                 = st'
              /\ (st' = run_state r
                  \/ exists size, st' = mark_downloaded (msg_id m') size (run_state r)))
        \/ (exists e,
              out_ended (retry_loop (seq k n) env message mt ff last r)
              = Failed e
              /\ run_state (out_run (retry_loop (seq k n) env message mt ff last r))
                 = mark_failed (msg_id m') (run_state r))).
Proof.
  revert k message last r.
  induction n as [| n IH]; intros k message last r Hk.
  - exists message. simpl. split; [done |]. split; [done |]. by left.
  - simpl seq. cbn [retry_loop].
    destruct (attempt_body (env k) message mt ff (run_state r))
      as [[x st'] | e] eqn:Hbody.
    + exists message. simpl. split; [done |]. split; [done |].
      right; left. exists x, st'. split; [done |]. split; [done |].
      by apply attempt_body_state in Hbody.
    + assert (Hlast : (k <? MAX_RETRIES - 1)%nat = false -> n = 0%nat).
      { intros H. apply Nat.ltb_ge in H. unfold MAX_RETRIES in *. lia. }
      assert (Hmore : (k <? MAX_RETRIES - 1)%nat = true -> n <> 0%nat).
      { intros H. apply Nat.ltb_lt in H. unfold MAX_RETRIES in *. lia. }
      assert (Hk' : (S k + n = MAX_RETRIES)%nat) by lia.
      destruct (exc_isinstance e).
      * (* FileReferenceExpiredError *)
        destruct (k <? MAX_RETRIES - 1)%nat eqn:Hlt.
        -- destruct (env_refetch (env k)) as [messages | e'] eqn:Hre.
           ++ set (message' := match messages with m :: _ => m | [] => message end).
              destruct (IH (S k) message' last
                          (count_refetch (report r e (msg_id message) false)) Hk')
                as (m' & Hres & Hid & Hcases).
              exists m'. split; [exact Hres |]. split.
              { intros Hkeep.
                assert (Hm : msg_id message' = msg_id message).
                { subst message'. destruct messages as [| m ms]; [done |].
                  by apply (Hkeep k m ms). }
                rewrite <- Hm. apply Hid. by rewrite Hm. }
              destruct Hcases as [(Hn & _) | [Hc | Hf]];
                [by destruct (Hmore eq_refl) | right; left; exact Hc | right; right; exact Hf].
           ++ exists message. simpl. split; [done |]. split; [done |].
              right; right. by exists e'.
        -- specialize (Hlast eq_refl). subst n. simpl.
           exists message. split; [done |]. split; [done |].
           right; right. by exists e.
      * (* TimeoutError *)
        destruct (k <? MAX_RETRIES - 1)%nat eqn:Hlt.
        -- match goal with
           | |- context [retry_loop _ _ _ _ _ _ ?r'] =>
               destruct (IH (S k) message last r' Hk') as (m' & Hres & Hid & Hcases)
           end.
           exists m'. split; [exact Hres |]. split; [exact Hid |].
           destruct Hcases as [(Hn & _) | [Hc | Hf]];
             [by destruct (Hmore eq_refl) | right; left; exact Hc | right; right; exact Hf].
        -- specialize (Hlast eq_refl). subst n. simpl.
           exists message. split; [done |]. split; [done |].
           right; right. by exists e.
      * exists message. simpl. split; [done |]. split; [done |].
        right; right. by exists e.
      * exists message. simpl. split; [done |]. split; [done |].
        right; right. by exists e.
Qed.

End DispatcherFacts.

Module DispatcherClaims.
Import Py State StateFacts ErrorHandlerPy Main DispatcherFacts.
Local Open Scope string_scope.

Ltac loop_step :=
  cbn [seq MAX_RETRIES retry_loop new_run Nat.ltb Nat.leb Nat.sub report
       add_wait sleep fail with_state count_refetch run_state run_waits
       run_sleeps run_handler run_refetches out_result out_ended out_run app].

Section Call.

Variable env : nat -> AttemptEnv.
Variable message : Message.
Variable media_types : list string.
Variable file_formats : gmap string formats_value.
Variable state : DownloadState.
Variable download_semaphore : option Z.
Variable error_handler : option ErrorHandler.

Local Abbreviation call :=
  (download_media env message media_types file_formats state
     download_semaphore error_handler).

Lemma download_media_internal :
  call = _download_media_internal env message media_types file_formats state
           error_handler.
Proof. unfold download_media. by destruct download_semaphore. Qed.


(** C7.  When each of the three passes times out and each jitter lies
    in [0, 1): the waits computed are [min(300, 2^k * 5 + jitter)] for
    k = 0, 1, 2, which here is [2^k * 5 + jitter]; they do not decrease
    and none exceeds 300; the dispatcher sleeps the first two of them and
    retries; and after the third pass the call returns the id with the id
    in [failed_ids]. *)
Theorem timeout_backoff_exhaustion :
  (forall k, (k < MAX_RETRIES)%nat ->
     times_out env message media_types file_formats state k) ->
  (forall k, (k < MAX_RETRIES)%nat ->
     (0 <= env_jitter (env k))%Q /\ (env_jitter (env k) < 1)%Q) ->
  (forall k j, wait_time k j
               = Qmin 300 (inject_Z (2 ^ Z.of_nat k) * 5 + j)%Q)
  /\ run_waits (out_run call)
     = [wait_time 0 (env_jitter (env 0%nat));
        wait_time 1 (env_jitter (env 1%nat));
        wait_time 2 (env_jitter (env 2%nat))]
  /\ run_sleeps (out_run call)
     = [wait_time 0 (env_jitter (env 0%nat));
        wait_time 1 (env_jitter (env 1%nat))]
  /\ (forall k, (k < MAX_RETRIES)%nat ->
        (wait_time k (env_jitter (env k))
         == inject_Z (2 ^ Z.of_nat k) * 5 + env_jitter (env k))%Q)
  /\ (wait_time 0 (env_jitter (env 0%nat))
      <= wait_time 1 (env_jitter (env 1%nat)))%Q
  /\ (wait_time 1 (env_jitter (env 1%nat))
      <= wait_time 2 (env_jitter (env 2%nat)))%Q
  /\ Forall (fun w => (w <= MAX_RETRY_DELAY)%Q) (run_waits (out_run call))
  /\ out_result call = Ok (msg_id message)
  /\ run_state (out_run call) = mark_failed (msg_id message) state
  /\ msg_id message ∈ failed_ids (run_state (out_run call))
  /\ (exists e, out_ended call = Failed e /\ exc_isinstance e = TimeoutErrorC).
Proof.
  intros Htime Hjit.
  destruct (Htime 0%nat) as (e0 & Hb0 & Hc0); [unfold MAX_RETRIES; lia |].
  destruct (Htime 1%nat) as (e1 & Hb1 & Hc1); [unfold MAX_RETRIES; lia |].
  destruct (Htime 2%nat) as (e2 & Hb2 & Hc2); [unfold MAX_RETRIES; lia |].
  destruct (Hjit 0%nat) as [Hj0 Hj0']; [unfold MAX_RETRIES; lia |].
  destruct (Hjit 1%nat) as [Hj1 Hj1']; [unfold MAX_RETRIES; lia |].
  destruct (Hjit 2%nat) as [Hj2 Hj2']; [unfold MAX_RETRIES; lia |].
  assert (Hrun :
    out_result call = Ok (msg_id message)
    /\ out_ended call = Failed e2
    /\ run_state (out_run call) = mark_failed (msg_id message) state
    /\ run_waits (out_run call)
       = [wait_time 0 (env_jitter (env 0%nat));
          wait_time 1 (env_jitter (env 1%nat));
          wait_time 2 (env_jitter (env 2%nat))]
    /\ run_sleeps (out_run call)
       = [wait_time 0 (env_jitter (env 0%nat));
          wait_time 1 (env_jitter (env 1%nat))]).
  { rewrite download_media_internal. unfold _download_media_internal.
    loop_step. rewrite Hb0, Hc0. loop_step. rewrite Hb1, Hc1. loop_step.
    rewrite Hb2, Hc2. loop_step.
    done. }
  destruct Hrun as (Hres & Hend & Hst & Hwaits & Hsleeps).
  assert (Hexact : forall k, (k < MAX_RETRIES)%nat ->
    (wait_time k (env_jitter (env k))
     == inject_Z (2 ^ Z.of_nat k) * 5 + env_jitter (env k))%Q).
  { intros k Hk. unfold wait_time, MAX_RETRY_DELAY, INITIAL_RETRY_DELAY.
    apply Q.min_r. destruct (Hjit k Hk) as [_ Hlt].
    unfold MAX_RETRIES in Hk.
    destruct k as [| [| [| k]]]; [| | | lia].
    - change (inject_Z (2 ^ Z.of_nat 0)) with 1%Q. lra.
    - change (inject_Z (2 ^ Z.of_nat 1)) with 2%Q. lra.
    - change (inject_Z (2 ^ Z.of_nat 2)) with 4%Q. lra. }
  assert (Hcap : forall k j, (wait_time k j <= MAX_RETRY_DELAY)%Q).
  { intros k j. apply Q.le_min_l. }
  split; [reflexivity |]. split; [exact Hwaits |]. split; [exact Hsleeps |].
  split; [exact Hexact |].
  split.
  { rewrite (Hexact 0%nat), (Hexact 1%nat) by (unfold MAX_RETRIES; lia).
    change (inject_Z (2 ^ Z.of_nat 0)) with 1%Q.
    change (inject_Z (2 ^ Z.of_nat 1)) with 2%Q. lra. }
  split.
  { rewrite (Hexact 1%nat), (Hexact 2%nat) by (unfold MAX_RETRIES; lia).
    change (inject_Z (2 ^ Z.of_nat 1)) with 2%Q.
    change (inject_Z (2 ^ Z.of_nat 2)) with 4%Q. lra. }
  split.
  { rewrite Hwaits. repeat constructor; apply Hcap. }
  split; [exact Hres |]. split; [exact Hst |]. split.
  { rewrite Hst. apply failed_ids_mark_failed. by right. }
  by exists e2.
Qed.

End Call.


(** C7 at a concrete call: the download times out in all three passes
    with jitter 1/2; the dispatcher sleeps 5.5 and 10.5 seconds and the
    id 7 ends in [failed_ids]. *)
Lemma timeout_backoff_exhaustion_witness :
  run_sleeps (out_run (download_media
                         (fun _ => download_raises timeout_error (1 # 2))
                         (photo_message 7) ["photo"] ∅ new_state (Some 5)
                         (Some new_handler)))
  = [wait_time 0 (1 # 2); wait_time 1 (1 # 2)]
  /\ 7 ∈ failed_ids (run_state (out_run (download_media
                         (fun _ => download_raises timeout_error (1 # 2))
                         (photo_message 7) ["photo"] ∅ new_state (Some 5)
                         (Some new_handler)))).
Proof.
  destruct (timeout_backoff_exhaustion
              (fun _ => download_raises timeout_error (1 # 2))
              (photo_message 7) ["photo"] ∅ new_state (Some 5)
              (Some new_handler))
    as (_ & _ & Hsleeps & _ & _ & _ & _ & _ & _ & Hin & _).
  - intros k _. exists timeout_error. split; vm_compute; reflexivity.
  - intros k _. split; [vm_compute; discriminate 1 | vm_compute; reflexivity].
  - split; [exact Hsleeps | exact Hin].
Defined.

End DispatcherClaims.

Module ScanClaims.
Import Py State ErrorHandlerPy Main.
Local Open Scope string_scope.

(** C2, evaluated on the code.  With 250 messages (ids 1 to 250, no
    media), [pagination_limit = 100], cursor 0, no retry ids, no date
    bounds and no cap, [begin_import] dispatches three batches, saves 250
    as the cursor and counts 250 messages -- but the batches hold 100,
    101 and 49 messages, not 100, 100 and 50: after a dispatch the
    message that triggered it opens the next batch while
    [pagination_count] restarts at 0. *)
Theorem scan_250_batches (world : Z -> nat -> AttemptEnv)
    (accepted : list string) (formats : gmap string formats_value)
    (duration : Q) :
  match begin_import world (mkConfig 0 [] accepted formats None None None)
          100 [] (text_messages 1 250) duration with
  | Ok r =>
      map length (res_batches r) = [100; 101; 49]%nat
      /\ map (fun b => map msg_id (take 1 b)) (res_batches r)
         = [[1]; [101]; [202]]
      /\ last_read_message_id (res_config r) = 250
      /\ Models.total_messages (res_summary r) = 250
  | Raise _ => False
  end.
Proof. vm_compute. repeat split. Qed.

End ScanClaims.

Module FileManagementFacts.
Import FileManagement.
Local Open Scope string_scope.

Lemma CHUNK_SIZE_pos : (0 < CHUNK_SIZE)%nat.
Proof. unfold CHUNK_SIZE. lia. Qed.

Lemma take_chunk_nil (data : list byte) : take CHUNK_SIZE data = [] -> data = [].
Proof.
  intros H. apply (f_equal length) in H. rewrite length_take in H.
  pose proof CHUNK_SIZE_pos. destruct data; [done | simpl in H; lia].
Qed.

Lemma read_chunks_spec fuel (data : list byte) :
  (length data < fuel)%nat ->
  concat (read_chunks fuel data) = data
  /\ Forall (fun c => (0 < length c <= CHUNK_SIZE)%nat) (read_chunks fuel data)
  /\ (forall i c, read_chunks fuel data !! i = Some c ->
        (S i < length (read_chunks fuel data))%nat -> length c = CHUNK_SIZE).
Proof.
  revert data. induction fuel as [| fuel IH]; intros data Hlen; [lia |].
  cbn [read_chunks].
  destruct (take CHUNK_SIZE data) as [| b chunk] eqn:Htake.
  - apply take_chunk_nil in Htake. subst data. repeat split; [constructor |].
    intros i c H. by rewrite lookup_nil in H.
  - pose proof CHUNK_SIZE_pos as Hpos.
    assert (Hdata : data <> []) by (intros ->; by rewrite take_nil in Htake).
    assert (Hdrop : (length (drop CHUNK_SIZE data) < fuel)%nat).
    { rewrite length_drop. destruct data; [done | simpl in *; lia]. }
    destruct (IH _ Hdrop) as (Hcat & Hall & Hfull).
    assert (Hchunk : (length (b :: chunk) <= CHUNK_SIZE)%nat).
    { rewrite <- Htake, length_take. lia. }
    split; [| split].
    + cbn [concat]. rewrite Hcat, <- Htake. apply take_drop.
    + constructor; [simpl in *; lia | exact Hall].
    + intros [| i] c Hc Hi.
      * injection Hc as <-. cbn [length] in Hi.
        destruct (read_chunks fuel (drop CHUNK_SIZE data)) as [| c' cs] eqn:Hrest;
          [simpl in Hi; lia |].
        assert (Hne : drop CHUNK_SIZE data <> []).
        { intros Hnil. rewrite Hnil in Hrest. destruct fuel; discriminate Hrest. }
        rewrite <- Htake, length_take.
        assert (length (drop CHUNK_SIZE data) <> 0)%nat
          by (by destruct (drop CHUNK_SIZE data)).
        rewrite length_drop in *. lia.
      * apply (Hfull i c); [exact Hc | simpl in Hi; lia].
Qed.

Lemma remove_first_not_in x l : NoDup l -> x ∉ remove_first x l.
Proof.
  induction 1 as [| y l Hy Hl IH]; simpl; [by apply not_elem_of_nil |].
  destruct (String.eqb_spec x y) as [-> | Hne]; [done |].
  rewrite elem_of_cons. tauto.
Qed.

Lemma remove_first_keeps x y l : y <> x -> y ∈ l -> y ∈ remove_first x l.
Proof.
  intros Hne. induction l as [| z l IH]; simpl; [done |].
  intros Hin. apply elem_of_cons in Hin as [-> | Hin].
  - destruct (String.eqb_spec x z) as [-> | _]; [done | by left].
  - destruct (String.eqb_spec x z) as [-> | _]; [done |]. right. by apply IH.
Qed.

Section WithLibraries.

Variable md5_state : Type.
Variable md5 : md5_state.
Variable md5_update : md5_state -> list byte -> md5_state.
Variable md5_hexdigest : md5_state -> string.
Variable glob : FileSystem -> string -> list string.

Local Abbreviation hash := (calculate_file_hash md5_state md5 md5_update md5_hexdigest).
Local Abbreviation check := (check_old_files md5_state md5 md5_update md5_hexdigest).
Local Abbreviation manage := (manage_duplicate_file md5_state md5 md5_update md5_hexdigest glob).

Lemma check_old_files_no_match fs p h olds :
  (forall c, c ∈ olds -> hash fs c <> Some h) -> check fs p h olds = (p, fs).
Proof.
  induction olds as [| c olds IH]; intros Hno; [done |]. cbn [check_old_files].
  destruct (hash fs c) as [h' |] eqn:Hc.
  - destruct (String.eqb_spec h h') as [-> | _].
    + exfalso. apply (Hno c); [by left | done].
    + apply IH. intros c' Hc'. apply Hno. by right.
  - apply IH. intros c' Hc'. apply Hno. by right.
Qed.

Lemma check_old_files_first_match fs p h pre c post :
  (forall c', c' ∈ pre -> hash fs c' <> Some h) ->
  hash fs c = Some h ->
  check fs p h (pre ++ c :: post)
  = match fs_remove fs p with
    | Some fs' => (c, fs')
    | None => (p, fs)
    end.
Proof.
  intros Hpre Hc. induction pre as [| c' pre IH]; cbn [app check_old_files].
  - rewrite Hc. by rewrite String.eqb_refl.
  - destruct (hash fs c') as [h' |] eqn:Hc'.
    + destruct (String.eqb_spec h h') as [-> | _].
      * exfalso. apply (Hpre c'); [by left | done].
      * apply IH. intros c'' Hin. apply Hpre. by right.
    + apply IH. intros c'' Hin. apply Hpre. by right.
Qed.

End WithLibraries.

End FileManagementFacts.

Module FileManagementClaims.
Import FileManagement FileManagementFacts.
Local Open Scope string_scope.

Lemma fs_remove_paths fs p fs' :
  fs_remove fs p = Some fs' ->
  forall q, q ∈ fs_paths fs' <-> q ∈ fs_paths fs /\ q <> p.
Proof.
  unfold fs_remove. destruct (fs_find fs p) as [e |]; [| done].
  destruct (removable e); [| done]. intros [= <-] q. unfold fs_paths.
  rewrite !list_elem_of_fmap. split.
  - intros ([q' e'] & -> & Hin). apply list_elem_of_In, filter_In in Hin.
    destruct Hin as [Hin Hne]. apply list_elem_of_In in Hin.
    simpl in *. split; [by exists (q', e') |].
    intros ->. by rewrite String.eqb_refl in Hne.
  - intros (([q' e'] & -> & Hin) & Hne). exists (q', e'). split; [done |].
    apply list_elem_of_In, filter_In. split; [by apply list_elem_of_In |].
    simpl in *. destruct (String.eqb_spec p q') as [-> | _]; done.
Qed.

Section WithLibraries.

Variable md5_state : Type.
Variable md5 : md5_state.
Variable md5_update : md5_state -> list byte -> md5_state.
Variable md5_hexdigest : md5_state -> string.
Variable glob : FileSystem -> string -> list string.

Local Abbreviation hash :=
  (calculate_file_hash md5_state md5 md5_update md5_hexdigest).
Local Abbreviation manage :=
  (manage_duplicate_file md5_state md5 md5_update md5_hexdigest glob).


End WithLibraries.



End FileManagementClaims.

Module StateExtras.
Import Py State StateFacts StateClaims StateAccounting Main.

Lemma first_size_snoc ops o i :
  first_size (ops ++ [o]) i
  = match first_size ops i with
    | Some n => Some n
    | None => first_size [o] i
    end.
Proof.
  induction ops as [| [j n |j] ops IH]; simpl.
  - by destruct (first_size [o] i).
  - case_decide; [done | exact IH].
  - exact IH.
Qed.

Lemma first_size_downloaded ops i :
  i ∈ downloaded_ids (run_marks ops) <-> is_Some (first_size ops i).
Proof.
  rewrite run_marks_downloaded. induction ops as [| [j n | j] ops IH]; simpl.
  - split; [intros [n H]; inversion H | intros [n H]; discriminate H].
  - case_decide as Hj.
    + subst j. split; [by eauto | intros _; exists n; by left].
    + rewrite <- IH. split; intros [m H]; exists m.
      * apply elem_of_cons in H as [H | H]; [congruence | done].
      * by right.
  - rewrite <- IH. split; intros [m H]; exists m.
    + apply elem_of_cons in H as [H | H]; [discriminate H | done].
    + by right.
Qed.

Lemma sum_first_sizes_snoc ops o (ids : list Z) :
  (forall i, i ∈ ids -> is_Some (first_size ops i)) ->
  sum_Z (map (fun i => default 0 (first_size (ops ++ [o]) i)) ids)
  = sum_Z (map (fun i => default 0 (first_size ops i)) ids).
Proof.
  intros Hall. unfold sum_Z. f_equal. apply map_ext_in. intros i Hi.
  apply list_elem_of_In in Hi. destruct (Hall i Hi) as [n Hn].
  by rewrite first_size_snoc, Hn.
Qed.

Lemma sum_Z_app l1 l2 : sum_Z (l1 ++ l2) = sum_Z l1 + sum_Z l2.
Proof. unfold sum_Z. induction l1 as [| x l1 IH]; simpl; lia. Qed.

(** X1.  After any run of [mark_downloaded] and [mark_failed] calls on a
    fresh state, [total_size_bytes] is the sum, over the ids in
    [downloaded_ids], of the size given with the first [mark_downloaded]
    of that id: sizes given with later marks of the same id are not
    counted.  With sizes that are not negative the total is not negative
    and is at most the sum of all sizes given. *)
Theorem total_size_counts_first_marks (ops : list mark_op) :
  total_size_bytes (run_marks ops)
  = sum_Z (map (fun i => default 0 (first_size ops i))
             (downloaded_ids (run_marks ops)))
  /\ (Forall (fun n => 0 <= n) (sizes_given ops) ->
        0 <= total_size_bytes (run_marks ops) <= sum_Z (sizes_given ops)).
Proof.
  induction ops as [| o ops [IH IHb]] using rev_ind.
  - split; [reflexivity |]. intros _. cbn. lia.
  - assert (Hsizes : sizes_given (ops ++ [o])
                     = sizes_given ops ++ sizes_given [o]).
    { unfold sizes_given. by rewrite omap_app. }
    rewrite run_marks_snoc. destruct o as [j n | j]; simpl apply_mark.
    + unfold mark_downloaded. case_decide as Hin.
      * split.
        -- rewrite sum_first_sizes_snoc; [exact IH |].
           intros i Hi. by apply first_size_downloaded.
        -- rewrite Hsizes, Forall_app, sum_Z_app. intros [Hall Hn].
           specialize (IHb Hall). cbn in *.
           apply Forall_cons in Hn as [Hn _]. lia.
      * assert (Hnone : first_size ops j = None).
        { destruct (first_size ops j) eqn:E; [| done].
          exfalso. apply Hin, first_size_downloaded. by rewrite E. }
        split.
        -- cbn [total_size_bytes downloaded_ids]. rewrite map_app, sum_Z_app.
           rewrite sum_first_sizes_snoc
             by (intros i Hi; by apply first_size_downloaded).
           rewrite <- IH. cbn [map]. rewrite first_size_snoc, Hnone.
           cbn. rewrite decide_True by done. cbn. lia.
        -- rewrite Hsizes, Forall_app, sum_Z_app. intros [Hall Hn].
           specialize (IHb Hall). cbn in *.
           apply Forall_cons in Hn as [Hn _]. lia.
    + unfold mark_failed. case_decide; cbn [total_size_bytes downloaded_ids].
      * split.
        -- rewrite sum_first_sizes_snoc; [exact IH |].
           intros i Hi. by apply first_size_downloaded.
        -- rewrite Hsizes, Forall_app, sum_Z_app. intros [Hall _].
           specialize (IHb Hall). cbn. lia.
      * split.
        -- rewrite sum_first_sizes_snoc; [exact IH |].
           intros i Hi. by apply first_size_downloaded.
        -- rewrite Hsizes, Forall_app, sum_Z_app. intros [Hall _].
           specialize (IHb Hall). cbn. lia.
Qed.

(** X2.  The list [get_retry_ids] returns has no repeated id exactly
    when [failed_ids] has none and no failed id is also a previous retry
    id that was not downloaded; such an id is listed twice. *)
Theorem get_retry_ids_duplicates (st : DownloadState) (previous : list Z) :
  (NoDup (get_retry_ids st previous)
   <-> NoDup (failed_ids st)
       /\ forall i, i ∈ failed_ids st ->
                    ~ (i ∈ previous /\ i ∉ downloaded_ids st))
  /\ (forall i, i ∈ previous -> i ∉ downloaded_ids st -> i ∈ failed_ids st ->
        exists l1 l2 l3, get_retry_ids st previous = l1 ++ i :: l2 ++ i :: l3).
Proof.
  unfold get_retry_ids. split.
  - rewrite NoDup_app. split.
    + intros (_ & Hdisj & Hnd). split; [done |].
      intros i Hf [Hp Hd]. apply (Hdisj i); [| done].
      apply elem_of_elements. set_solver.
    + intros [Hnd Hdisj]. split; [apply NoDup_elements |]. split; [| done].
      intros i Hi Hf. apply elem_of_elements in Hi.
      apply (Hdisj i Hf). set_solver.
  - intros i Hp Hd Hf.
    assert (Hin : i ∈ elements ((list_to_set previous : gset Z)
                                  ∖ list_to_set (downloaded_ids st))).
    { apply elem_of_elements. set_solver. }
    apply list_elem_of_split in Hin as (l1 & l2 & ->).
    apply list_elem_of_split in Hf as (l3 & l4 & ->).
    exists l1, (l2 ++ l3), l4. by rewrite <- !app_assoc.
Qed.

Lemma get_retry_ids_as_set (st : DownloadState) (previous : list Z) :
  (list_to_set (get_retry_ids st previous) : gset Z)
  = (list_to_set previous ∖ list_to_set (downloaded_ids st))
      ∪ list_to_set (failed_ids st).
Proof.
  unfold get_retry_ids. rewrite list_to_set_app_L.
  f_equal. apply set_eq. intros x.
  rewrite elem_of_list_to_set, elem_of_elements. done.
Qed.

(** X3.  Saving the retry list in between does not change what is saved
    in the end: when the state has only grown, [update_config] on the
    configuration an earlier [update_config] wrote gives the same set of
    retry ids as [update_config] on the original configuration; in
    particular saving twice with one state gives the same set. *)
Theorem update_config_composes (config : Config) (earlier later : DownloadState) :
  downloaded_ids earlier ⊆ downloaded_ids later ->
  failed_ids earlier ⊆ failed_ids later ->
  (list_to_set (ids_to_retry (update_config (update_config config earlier) later))
     : gset Z)
  = list_to_set (ids_to_retry (update_config config later))
  /\ last_read_message_id (update_config (update_config config earlier) later)
     = last_read_message_id config.
Proof.
  intros Hd Hf. split; [| reflexivity].
  cbn [update_config ids_to_retry].
  rewrite (get_retry_ids_as_set later
             (get_retry_ids earlier (ids_to_retry config))).
  rewrite (get_retry_ids_as_set later (ids_to_retry config)).
  rewrite (get_retry_ids_as_set earlier (ids_to_retry config)).
  apply set_eq. intros x.
  rewrite !elem_of_union, !elem_of_difference, !elem_of_union,
    !elem_of_difference, !elem_of_list_to_set.
  specialize (Hd x). specialize (Hf x). tauto.
Qed.

Lemma update_config_composes_witness :
  (list_to_set (ids_to_retry
     (update_config (update_config (mkConfig 0 [1; 2; 3] [] ∅ None None None)
                       (mkDownloadState [4] [2] 10))
        (mkDownloadState [4; 5] [2; 3] 20))) : gset Z)
  = list_to_set (ids_to_retry
      (update_config (mkConfig 0 [1; 2; 3] [] ∅ None None None)
         (mkDownloadState [4; 5] [2; 3] 20))).
Proof.
  apply (update_config_composes (mkConfig 0 [1; 2; 3] [] ∅ None None None)
           (mkDownloadState [4] [2] 10) (mkDownloadState [4; 5] [2; 3] 20)).
  - simpl. set_solver.
  - simpl. set_solver.
Defined.

End StateExtras.

Module ModelsExtras.
Import Py Models ModelsClaims.



End ModelsExtras.

Module DispatcherExtras.
Import Py State StateFacts ErrorHandlerPy Main DispatcherFacts DispatcherClaims.
Local Open Scope string_scope.

Ltac effort_done :=
  simpl; split; [lia |]; split; [lia |]; done.

Lemma retry_loop_effort n k env message mt ff last r :
  (k + n = MAX_RETRIES)%nat ->
  (run_refetches (out_run (retry_loop (seq k n) env message mt ff last r))
   + length (run_sleeps (out_run (retry_loop (seq k n) env message mt ff last r)))
   <= run_refetches r + length (run_sleeps r) + (n - 1))%nat
  /\ (length (run_waits (out_run (retry_loop (seq k n) env message mt ff last r)))
      <= length (run_waits r) + n)%nat
  /\ (Forall (fun w => (w <= MAX_RETRY_DELAY)%Q) (run_sleeps r) ->
      Forall (fun w => (w <= MAX_RETRY_DELAY)%Q)
        (run_sleeps (out_run (retry_loop (seq k n) env message mt ff last r)))).
Proof.
  revert k message last r. induction n as [| n IH]; intros k message last r Hk.
  - effort_done.
  - simpl seq. cbn [retry_loop].
    assert (Hk' : (S k + n = MAX_RETRIES)%nat) by lia.
    assert (Hlt : (k <? MAX_RETRIES - 1)%nat = true -> (1 <= n)%nat).
    { intros H. apply Nat.ltb_lt in H. unfold MAX_RETRIES in *. lia. }
    destruct (attempt_body (env k) message mt ff (run_state r))
      as [[x st'] | e]; [effort_done |].
    destruct (exc_isinstance e).
    + destruct (k <? MAX_RETRIES - 1)%nat eqn:E.
      * specialize (Hlt eq_refl).
        destruct (env_refetch (env k)) as [messages | e']; [| effort_done].
        match goal with
        | |- context [retry_loop _ _ ?m _ _ ?l ?r'] =>
            destruct (IH (S k) m l r' Hk') as (H1 & H2 & H3)
        end.
        cbn [run_refetches run_sleeps run_waits count_refetch report] in *.
        split; [lia |]. split; [lia | exact H3].
      * match goal with
        | |- context [retry_loop _ _ ?m _ _ ?l ?r'] =>
            destruct (IH (S k) m l r' Hk') as (H1 & H2 & H3)
        end.
        cbn [run_refetches run_sleeps run_waits fail with_state report] in *.
        split; [lia |]. split; [lia | exact H3].
    + destruct (k <? MAX_RETRIES - 1)%nat eqn:E.
      * specialize (Hlt eq_refl).
        match goal with
        | |- context [retry_loop _ _ ?m _ _ ?l ?r'] =>
            destruct (IH (S k) m l r' Hk') as (H1 & H2 & H3)
        end.
        cbn [run_refetches run_sleeps run_waits sleep add_wait report] in *.
        rewrite !length_app in *. cbn [length] in *.
        split; [lia |]. split; [lia |].
        intros Hall. apply H3. apply Forall_app. split; [done |].
        constructor; [apply Q.le_min_l | constructor].
      * match goal with
        | |- context [retry_loop _ _ ?m _ _ ?l ?r'] =>
            destruct (IH (S k) m l r' Hk') as (H1 & H2 & H3)
        end.
        cbn [run_refetches run_sleeps run_waits fail with_state add_wait
               report] in *.
        rewrite !length_app in *. cbn [length] in *.
        split; [lia |]. split; [lia | exact H3].
    + effort_done.
    + effort_done.
Qed.

Section Call.

Variable env : nat -> AttemptEnv.
Variable message : Message.
Variable media_types : list string.
Variable file_formats : gmap string formats_value.
Variable state : DownloadState.
Variable download_semaphore : option Z.
Variable error_handler : option ErrorHandler.

Local Abbreviation call :=
  (download_media env message media_types file_formats state
     download_semaphore error_handler).

(** X5.  Whatever the outside world does, one call of [download_media]
    sleeps and refetches at most twice taken together, computes at most
    three waits, and never sleeps longer than [MAX_RETRY_DELAY]. *)
Theorem download_media_bounded_effort :
  (run_refetches (out_run call) + length (run_sleeps (out_run call)) <= 2)%nat
  /\ (length (run_waits (out_run call)) <= 3)%nat
  /\ Forall (fun w => (w <= MAX_RETRY_DELAY)%Q) (run_sleeps (out_run call)).
Proof.
  rewrite download_media_internal. unfold _download_media_internal.
  pose proof (retry_loop_effort MAX_RETRIES 0 env message media_types
                file_formats Exhausted (new_run state error_handler) eq_refl)
    as H.
  remember (out_run (retry_loop (seq 0 MAX_RETRIES) env message media_types
                       file_formats Exhausted (new_run state error_handler)))
    as r' eqn:Hr'. clear Hr'.
  destruct H as (H1 & H2 & H3). simpl in H1, H2, H3.
  unfold MAX_RETRIES in H2.
  split; [lia |]. split; [lia |]. apply H3. constructor.
Qed.

(** X6.  A message that is filtered out costs nothing: when the message
    has no media, or its kind is not among the accepted kinds, the call
    returns the id with state and handler as they were, without sleeping
    or refetching, whatever the outside world would do; the same holds,
    leaving by the [break], when the kind is audio, document or video,
    the message has a document, and the format check rejects the format
    that [_get_media_meta] found. *)
Theorem download_media_skips :
  (get_media_type message = None ->
     call = mkOutcome (Ok (msg_id message)) (Completed ReturnId)
              (new_run state error_handler))
  /\ (forall kind, get_media_type message = Some kind -> kind ∉ media_types ->
        call = mkOutcome (Ok (msg_id message)) (Completed ReturnId)
                 (new_run state error_handler))
  /\ (forall kind obj file_name file_format,
        get_media_type message = Some kind -> kind ∈ media_types ->
        kind ∈ ["audio"; "document"; "video"] ->
        msg_document message = Some obj ->
        env_media_meta (env 0%nat) = Ok (file_name, file_format) ->
        _can_download kind file_formats file_format = false ->
        call = mkOutcome (Ok (msg_id message)) (Completed Break)
                 (new_run state error_handler)).
Proof.
  rewrite download_media_internal. unfold _download_media_internal.
  split; [| split].
  - intros Hnone. loop_step. unfold attempt_body. rewrite Hnone.
    by destruct state, error_handler.
  - intros kind Hkind Hnot. loop_step. unfold attempt_body. rewrite Hkind.
    rewrite bool_decide_eq_false_2 by done. simpl.
    by destruct state, error_handler.
  - intros kind obj file_name file_format Hkind Hin Hfilter Hdoc Hmeta Hcan.
    loop_step. unfold attempt_body. rewrite Hkind.
    rewrite bool_decide_eq_true_2 by done. cbn [negb].
    assert (Hobj : (if String.eqb kind "photo" then msg_photo message
                    else if String.eqb kind "voice" then msg_voice message
                    else if String.eqb kind "video_note"
                         then msg_video_note message
                    else msg_document message) = Some obj).
    { rewrite !elem_of_cons in Hfilter.
      destruct Hfilter as [-> | [-> | [-> | Hnil]]]; try exact Hdoc.
      by apply elem_of_nil in Hnil. }
    rewrite Hobj, Hmeta. cbn [bind fst snd]. rewrite Hcan.
    by destruct state, error_handler.
Qed.

(** X7.  The retry after an expired file reference.  When the first two
    passes raise [FileReferenceExpiredError], both refetches answer, and
    the third pass completes on the message last fetched (an empty answer
    keeps the message at hand), the call refetches exactly twice, never
    sleeps, returns the id of the message last fetched, records no
    failure, and leaves the state the third pass produced. *)
Theorem expired_reference_retry (e0 e1 : PyExc) (ms0 ms1 : list Message)
    (exit : body_exit) (state' : DownloadState) :
  attempt_body (env 0%nat) message media_types file_formats state = Raise e0 ->
  exc_isinstance e0 = FileReferenceExpiredErrorC ->
  env_refetch (env 0%nat) = Ok ms0 ->
  attempt_body (env 1%nat) (hd message ms0) media_types file_formats state
  = Raise e1 ->
  exc_isinstance e1 = FileReferenceExpiredErrorC ->
  env_refetch (env 1%nat) = Ok ms1 ->
  attempt_body (env 2%nat) (hd (hd message ms0) ms1) media_types file_formats
    state = Ok (exit, state') ->
  out_result call = Ok (msg_id (hd (hd message ms0) ms1))
  /\ out_ended call = Completed exit
  /\ run_state (out_run call) = state'
  /\ failed_ids (run_state (out_run call)) = failed_ids state
  /\ run_refetches (out_run call) = 2%nat
  /\ run_sleeps (out_run call) = [].
Proof.
  intros Hb0 Hc0 Hr0 Hb1 Hc1 Hr1 Hb2.
  assert (Hhd : forall (m : Message) ms,
            match ms with x :: _ => x | [] => m end = hd m ms)
    by (intros m [| x ms]; reflexivity).
  rewrite download_media_internal. unfold _download_media_internal.
  loop_step. rewrite Hb0, Hc0. loop_step. rewrite Hr0, Hhd. loop_step.
  rewrite Hb1, Hc1. loop_step. rewrite Hr1, Hhd. loop_step.
  rewrite Hb2. loop_step.
  repeat split; try reflexivity.
  by apply failed_ids_attempt_body in Hb2.
Qed.

(** X8.  What the error handler books.  With a handler passed: a first
    pass failing with an exception of no handled class is booked as one
    error whatever the exception is called (the dispatcher reports it as
    critical); three passes timing out with exceptions called
    [TimeoutError] are booked as three warnings and no error, although
    the message ends up failed. *)
Theorem download_media_bookkeeping (h : ErrorHandler) :
  error_handler = Some h ->
  (forall e,
     attempt_body (env 0%nat) message media_types file_formats state = Raise e ->
     exc_isinstance e = ExceptionC ->
     run_handler (out_run call)
     = Some (mkErrorHandler (error_count h + 1) (warnings_count h)))
  /\ (forall e0 e1 e2,
        attempt_body (env 0%nat) message media_types file_formats state
        = Raise e0 ->
        attempt_body (env 1%nat) message media_types file_formats state
        = Raise e1 ->
        attempt_body (env 2%nat) message media_types file_formats state
        = Raise e2 ->
        Forall (fun e => exc_isinstance e = TimeoutErrorC
                         /\ exc_type_name e = "TimeoutError") [e0; e1; e2] ->
        run_handler (out_run call)
        = Some (mkErrorHandler (error_count h) (warnings_count h + 3))
        /\ msg_id message ∈ failed_ids (run_state (out_run call))).
Proof.
  intros ->. rewrite download_media_internal. unfold _download_media_internal.
  split.
  - intros e Hb Hc. loop_step. rewrite Hb, Hc. loop_step.
    cbn [option_map handle_error books_error orb fst]. reflexivity.
  - intros e0 e1 e2 Hb0 Hb1 Hb2 Hall.
    apply Forall_cons in Hall as [[Hc0 Hn0] Hall].
    apply Forall_cons in Hall as [[Hc1 Hn1] Hall].
    apply Forall_cons in Hall as [[Hc2 Hn2] _].
    assert (Hwarn : forall e h', exc_type_name e = "TimeoutError" ->
              fst (handle_error h' e (Some (msg_id message)) true false)
              = mkErrorHandler (error_count h') (warnings_count h' + 1)).
    { intros e h' Hn. unfold handle_error, books_error, from_exception.
      rewrite Hn. reflexivity. }
    loop_step. rewrite Hb0, Hc0. loop_step. rewrite Hb1, Hc1. loop_step.
    rewrite Hb2, Hc2. loop_step. cbn [option_map].
    rewrite !Hwarn by done. cbn [error_count warnings_count]. split.
    + do 2 f_equal. lia.
    + apply failed_ids_mark_failed. by right.
Qed.

End Call.

Lemma expired_reference_retry_witness :
  run_refetches (out_run (download_media
    (fun k => if (k <? 2)%nat
              then download_raises
                     (mkExc "FileReferenceExpiredError" FileReferenceExpiredErrorC) 0
              else mkEnv (Ok ("/out/photo/photo_7.jpg", Some "jpg"))
                     (fun _ => false) (fun p => p) (fun p => Ok (Some p))
                     (fun p => Ok p) (fun _ => true) (fun _ => Ok 2048) 0 (Ok []))
    (photo_message 7) ["photo"] ∅ new_state (Some 5) None)) = 2%nat
  /\ run_state (out_run (download_media
    (fun k => if (k <? 2)%nat
              then download_raises
                     (mkExc "FileReferenceExpiredError" FileReferenceExpiredErrorC) 0
              else mkEnv (Ok ("/out/photo/photo_7.jpg", Some "jpg"))
                     (fun _ => false) (fun p => p) (fun p => Ok (Some p))
                     (fun p => Ok p) (fun _ => true) (fun _ => Ok 2048) 0 (Ok []))
    (photo_message 7) ["photo"] ∅ new_state (Some 5) None))
    = mkDownloadState [] [7] 2048.
Proof.
  destruct (expired_reference_retry
    (fun k => if (k <? 2)%nat
              then download_raises
                     (mkExc "FileReferenceExpiredError" FileReferenceExpiredErrorC) 0
              else mkEnv (Ok ("/out/photo/photo_7.jpg", Some "jpg"))
                     (fun _ => false) (fun p => p) (fun p => Ok (Some p))
                     (fun p => Ok p) (fun _ => true) (fun _ => Ok 2048) 0 (Ok []))
    (photo_message 7) ["photo"] ∅ new_state (Some 5) None
    (mkExc "FileReferenceExpiredError" FileReferenceExpiredErrorC)
    (mkExc "FileReferenceExpiredError" FileReferenceExpiredErrorC)
    [] [] Break (mkDownloadState [] [7] 2048))
    as (_ & _ & Hst & _ & Hre & _); try (vm_compute; reflexivity).
  split; [exact Hre | exact Hst].
Defined.

Lemma download_media_bookkeeping_witness :
  run_handler (out_run (download_media
     (fun _ => download_raises (mkExc "ConnectionError" ExceptionC) 0)
     (photo_message 7) ["photo"] ∅ new_state (Some 5) (Some new_handler)))
  = Some (mkErrorHandler 1 0).
Proof.
  destruct (download_media_bookkeeping
     (fun _ => download_raises (mkExc "ConnectionError" ExceptionC) 0)
     (photo_message 7) ["photo"] ∅ new_state (Some 5) (Some new_handler)
     new_handler eq_refl) as [H _].
  apply (H (mkExc "ConnectionError" ExceptionC)); vm_compute; reflexivity.
Defined.

End DispatcherExtras.

Module ScanFacts.
Import Py State StateFacts ErrorHandlerPy Main DispatcherFacts DispatcherClaims.
Import ScanSpec.
Local Open Scope Z_scope.

Lemma py_max_cons x l :
  exists y, py_max (x :: l) = Ok y /\ y ∈ x :: l /\ forall z, z ∈ x :: l -> z <= y.
Proof.
  unfold py_max. exists (fold_left Z.max l x). split; [done |].
  revert x. induction l as [| a l IH]; intros x; simpl.
  - split; [by left |]. intros z Hz. apply list_elem_of_singleton in Hz. lia.
  - destruct (IH (Z.max x a)) as [Hin Hmax]. split.
    + apply elem_of_cons in Hin as [Hin | Hin]; [| set_solver].
      rewrite Hin. destruct (Z.max_spec x a) as [[_ ->] | [_ ->]]; set_solver.
    + intros z Hz. rewrite !elem_of_cons in Hz.
      destruct Hz as [-> | [-> | Hz]].
      * specialize (Hmax (Z.max x a)). etrans; [| apply Hmax; by left]. lia.
      * specialize (Hmax (Z.max x a)). etrans; [| apply Hmax; by left]. lia.
      * apply Hmax. by right.
Qed.

Lemma download_media_outcome env message mt ff st sem eh :
  exists i,
    out_result (download_media env message mt ff st sem eh) = Ok i
    /\ (refetch_keeps_id env (msg_id message) -> i = msg_id message)
    /\ (run_state (out_run (download_media env message mt ff st sem eh)) = st
        \/ (exists size,
              run_state (out_run (download_media env message mt ff st sem eh))
              = mark_downloaded i size st)
        \/ run_state (out_run (download_media env message mt ff st sem eh))
           = mark_failed i st).
Proof.
  rewrite download_media_internal. unfold _download_media_internal.
  destruct (retry_loop_seq MAX_RETRIES 0 env message mt ff Exhausted
              (new_run st eh) eq_refl)
    as (m' & Hres & Hid & Hcases).
  exists (msg_id m'). split; [exact Hres |]. split; [exact Hid |].
  destruct Hcases
    as [(Hn & _) | [(x & st' & Hend & Hst & Hcase) | (e & Hend & Hst)]].
  - discriminate Hn.
  - rewrite Hst. change (run_state (new_run st eh)) with st in Hcase.
    destruct Hcase as [-> | [size ->]]; [by left |].
    right. left. by exists size.
  - change (run_state (new_run st eh)) with st in Hst. by right; right.
Qed.

Lemma download_media_state env message mt ff st sem eh :
  exists i, out_result (download_media env message mt ff st sem eh) = Ok i
    /\ (refetch_keeps_id env (msg_id message) -> i = msg_id message)
    /\ (NoDup (failed_ids st) ->
        NoDup (failed_ids (run_state (out_run
                 (download_media env message mt ff st sem eh))))).
Proof.
  destruct (download_media_outcome env message mt ff st sem eh)
    as (i & Hres & Hid & Hcases).
  exists i. split; [done |]. split; [done |]. intros Hnd.
  destruct Hcases as [-> | [[size ->] | ->]].
  - done.
  - by rewrite failed_ids_mark_downloaded.
  - by apply NoDup_mark_failed.
Qed.

Lemma gather_ok world messages mt ff st sem eh :
  exists ids st' eh',
    gather world messages mt ff st sem eh = Ok (ids, st', eh')
    /\ length ids = length messages
    /\ ((forall m, m ∈ messages -> refetch_keeps_id (world (msg_id m)) (msg_id m))
        -> ids = map msg_id messages)
    /\ (NoDup (failed_ids st) -> NoDup (failed_ids st')).
Proof.
  revert st eh. induction messages as [| m rest IH]; intros st eh.
  - exists [], st, eh. simpl. by repeat split.
  - cbn [gather].
    destruct (download_media_state (world (msg_id m)) m mt ff st sem eh)
      as (i & Hres & Hid & Hnd).
    rewrite Hres. cbn [bind].
    destruct (IH (run_state (out_run (download_media (world (msg_id m)) m mt
                                        ff st sem eh)))
                (run_handler (out_run (download_media (world (msg_id m)) m mt
                                         ff st sem eh))))
      as (ids & st' & eh' & Hg & Hlen & Hids & Hnd').
    rewrite Hg. cbn [bind fst snd].
    exists (i :: ids), st', eh'. split; [done |]. split; [simpl; lia |].
    split.
    + intros Hall. cbn [map]. f_equal.
      * apply Hid, Hall. by left.
      * apply Hids. intros m' Hm'. apply Hall. by right.
    + intros H. by apply Hnd', Hnd.
Qed.

Lemma process_messages_cons world m rest mt ff st sem eh :
  exists last st' eh',
    process_messages world (m :: rest) mt ff st sem eh = Ok (last, st', eh')
    /\ ((forall m', m' ∈ m :: rest ->
           refetch_keeps_id (world (msg_id m')) (msg_id m')) ->
        last ∈ map msg_id (m :: rest)
        /\ forall m', m' ∈ m :: rest -> msg_id m' <= last)
    /\ (NoDup (failed_ids st) -> NoDup (failed_ids st')).
Proof.
  unfold process_messages.
  destruct (gather_ok world (m :: rest) mt ff st sem eh)
    as (ids & st' & eh' & Hg & Hlen & Hids & Hnd).
  rewrite Hg. cbn [bind fst snd].
  destruct ids as [| i ids]; [discriminate Hlen |].
  destruct (py_max_cons i ids) as (y & Hy & Hin & Hmax).
  rewrite Hy. cbn [bind]. exists y, st', eh'. split; [done |].
  split; [| done]. intros Hall. specialize (Hids Hall). rewrite Hids in *.
  split; [done |]. intros m' Hm'. apply Hmax.
  apply list_elem_of_fmap. by exists m'.
Qed.

End ScanFacts.
Module ScanInvariant.
Import Py State StateFacts ErrorHandlerPy Main DispatcherFacts DispatcherClaims.
Import ScanSpec ScanFacts.
Local Open Scope Z_scope.

Lemma scan_messages_inv world limit sd ed stream : forall s,
  max_messages (sc_config s) = None ->
  start_date (sc_config s) = sd ->
  end_date (sc_config s) = ed ->
  (sc_pagination_count s = limit -> sc_messages_list s <> []) ->
  exists s',
    scan_messages world limit stream s = Ok s'
    /\ concat (sc_batches s') ++ sc_messages_list s'
       = concat (sc_batches s) ++ sc_messages_list s
           ++ kept ed (scanned sd ed stream)
    /\ sc_total_messages s'
       = sc_total_messages s + Z.of_nat (length (scanned sd ed stream))
         + (if stopped sd ed stream then 1 else 0)
    /\ sc_skipped_messages s'
       = sc_skipped_messages s
         + Z.of_nat (length (skipped ed (scanned sd ed stream)))
    /\ (counted limit s -> counted limit s')
    /\ (limit < sc_pagination_count s ->
        sc_batches s' = sc_batches s).
Proof.
  induction stream as [| m rest IH]; intros s Hcap Hsd Hed Hne.
  - exists s. cbn. rewrite !app_nil_r.
    split; [done |]. split; [done |]. split; [lia |]. split; [lia |]. done.
  - cbn [scan_messages scanned]. rewrite Hsd, Hed.
    change (match ed with Some d => d <? msg_date m | None => false end)
      with (after_end ed m).
    change (match sd with Some d => msg_date m <? d | None => false end)
      with (before_start sd m).
    unfold stopped. cbn [scanned].
    destruct (after_end ed m) eqn:Hafter.
    { (* skipped, scan goes on *)
      match goal with
      | |- context [scan_messages _ _ rest ?s1] =>
          destruct (IH s1) as (s' & Hok & Hcat & Htot & Hskip & Hcount & Hbig);
            [done | done | done | done |]
      end.
      exists s'. split; [exact Hok |].
      cbn [sc_batches sc_messages_list sc_total_messages sc_skipped_messages
             sc_pagination_count] in *.
      unfold kept, skipped, stopped in *. cbn [List.filter length].
      rewrite Hafter. cbn [negb length].
      split; [exact Hcat |]. split.
      { rewrite Htot. cbn [Nat.ltb Nat.leb].
        change (S (length (scanned sd ed rest)) <=? length rest)%nat
          with (length (scanned sd ed rest) <? length rest)%nat. lia. }
      split; [lia |]. split; [exact Hcount | exact Hbig]. }
    destruct (before_start sd m) eqn:Hbefore.
    { (* break *)
      eexists. split; [reflexivity |].
      cbn [sc_batches sc_messages_list sc_total_messages sc_skipped_messages
             sc_pagination_count].
      unfold kept, skipped. cbn. rewrite !app_nil_r.
      split; [done |]. split; [lia |]. split; [lia |]. done. }
    destruct (sc_pagination_count s =? limit) eqn:Hfull; cbn [negb].
    { (* dispatch *)
      apply Z.eqb_eq in Hfull. specialize (Hne Hfull).
      destruct (sc_messages_list s) as [| m0 batch] eqn:Hlist; [done |].
      destruct (process_messages_cons world m0 batch
                  (media_types (sc_config s)) (file_formats (sc_config s))
                  (sc_state s) (Some MAX_CONCURRENT_DOWNLOADS)
                  (Some (sc_error_handler s)))
        as (last & st' & eh' & Hp & _).
      rewrite Hp. cbn [bind fst snd].
      unfold cap_reached. rewrite Hcap.
      match goal with
      | |- context [scan_messages _ _ rest ?s1] =>
          destruct (IH s1) as (s' & Hok & Hcat & Htot & Hskip & Hcount & Hbig)
      end.
      { cbn [sc_config]. by destruct (_ =? 0). }
      { cbn [sc_config]. by destruct (_ =? 0). }
      { cbn [sc_config]. by destruct (_ =? 0). }
      { done. }
      exists s'. split; [exact Hok |].
      cbn [sc_batches sc_messages_list sc_total_messages sc_skipped_messages
             sc_pagination_count] in *.
      unfold kept, skipped, stopped in *. cbn [List.filter length].
      rewrite Hafter. cbn [negb length].
      split.
      { rewrite Hcat, concat_app. cbn [concat]. rewrite app_nil_r.
        by rewrite <- !app_assoc. }
      split.
      { rewrite Htot. cbn [Nat.ltb Nat.leb].
        change (S (length (scanned sd ed rest)) <=? length rest)%nat
          with (length (scanned sd ed rest) <? length rest)%nat. lia. }
      split; [lia |]. split; [| lia].
      intros (Hfulls & Hlen & Hrange). rewrite Hlist in Hlen.
      apply Hcount. unfold counted.
      cbn [sc_batches sc_messages_list sc_pagination_count].
      split; [| split].
      - intros i b Hi. apply lookup_app_Some in Hi as [Hi | [Hge Hi]].
        + by apply Hfulls.
        + destruct (i - length (sc_batches s))%nat as [| j] eqn:Hj;
            [| simpl in Hi; by rewrite lookup_nil in Hi].
          injection Hi as <-. rewrite Hlen, Hfull.
          assert (i = length (sc_batches s)) as -> by lia.
          destruct (sc_batches s); simpl; lia.
      - destruct (sc_batches s); simpl; lia.
      - lia. }
    (* batched *)
    apply Z.eqb_neq in Hfull.
    match goal with
    | |- context [scan_messages _ _ rest ?s1] =>
        destruct (IH s1) as (s' & Hok & Hcat & Htot & Hskip & Hcount & Hbig);
          [done | done | done | |]
    end.
    { cbn. intros _ H. by destruct (sc_messages_list s). }
    exists s'. split; [exact Hok |].
    cbn [sc_batches sc_messages_list sc_total_messages sc_skipped_messages
           sc_pagination_count] in *.
    unfold kept, skipped, stopped in *. cbn [List.filter length].
    rewrite Hafter. cbn [negb length].
    split; [rewrite Hcat; by rewrite <- !app_assoc |].
    split.
    { rewrite Htot. cbn [Nat.ltb Nat.leb].
      change (S (length (scanned sd ed rest)) <=? length rest)%nat
        with (length (scanned sd ed rest) <? length rest)%nat. lia. }
    split; [lia |]. split.
    + intros (Hfulls & Hlen & Hrange). apply Hcount. unfold counted.
      cbn [sc_batches sc_messages_list sc_pagination_count].
      split; [done |]. split; [| lia]. rewrite length_app. simpl. lia.
    + intros Hlt. apply Hbig. lia.
Qed.

End ScanInvariant.
Module ScanExtras.
Import Py State StateFacts ErrorHandlerPy Main DispatcherFacts DispatcherClaims.
Import ScanSpec ScanFacts ScanInvariant.
Local Open Scope Z_scope.


(** X10.  With [pagination_limit = 0] and no retry seed, the first
    message that passes the date bounds makes [begin_import] raise
    [ValueError]: the empty batch is dispatched. *)
Theorem begin_import_zero_limit (world : Z -> nat -> AttemptEnv)
    (config : Config) (retry_messages : list Message) (m : Message)
    (rest : list Message) (duration : Q) :
  seeded config retry_messages = [] ->
  after_end (end_date config) m = false ->
  before_start (start_date config) m = false ->
  begin_import world config 0 retry_messages (m :: rest) duration
  = Raise ValueError.
Proof.
  intros Hseed Hafter Hbefore. unfold begin_import.
  change (match ids_to_retry config with [] => [] | _ :: _ => retry_messages end)
    with (seeded config retry_messages).
  rewrite Hseed. cbn [length Z.of_nat scan_messages sc_config sc_total_messages
                        sc_pagination_count sc_messages_list].
  change (match end_date config with Some d => d <? msg_date m | None => false end)
    with (after_end (end_date config) m).
  change (match start_date config with Some d => msg_date m <? d | None => false end)
    with (before_start (start_date config) m).
  rewrite Hafter, Hbefore. reflexivity.
Qed.

Lemma begin_import_zero_limit_witness :
  begin_import (fun _ _ => download_raises os_error 0)
    (mkConfig 0 [] [] ∅ None None None) 0 [] (text_messages 1 3) 1
  = Raise ValueError.
Proof.
  apply (begin_import_zero_limit (fun _ _ => download_raises os_error 0)
           (mkConfig 0 [] [] ∅ None None None) [] (text_message 1)
           (text_messages 2 2) 1); reflexivity.
Defined.

Section Session.

Variable world : Z -> nat -> AttemptEnv.
Variable config : Config.
Variable pagination_limit : Z.
Variable retry_messages stream : list Message.
Variable duration : Q.

Local Abbreviation run := (begin_import world config pagination_limit
                             retry_messages stream duration).
Local Abbreviation seed := (seeded config retry_messages).
Local Abbreviation passed :=
  (scanned (start_date config) (end_date config) stream).

Lemma begin_import_scan :
  max_messages config = None ->
  (pagination_limit <> 0 \/ seed <> []) ->
  exists s r,
    scan_messages world pagination_limit stream
      (mkScan config seed (Z.of_nat (length seed)) 0 0
         (last_read_message_id config) new_state new_handler [] []) = Ok s
    /\ run = Ok r
    /\ concat (sc_batches s) ++ sc_messages_list s
       = seed ++ kept (end_date config) passed
    /\ res_batches r
       = sc_batches s ++ match sc_messages_list s with
                         | [] => []
                         | l => [l]
                         end
    /\ Models.total_messages (res_summary r)
       = Z.of_nat (length passed)
         + (if stopped (start_date config) (end_date config) stream
            then 1 else 0)
    /\ Models.skipped_messages (res_summary r)
       = Z.of_nat (length (skipped (end_date config) passed))
    /\ (Z.of_nat (length seed) <= pagination_limit ->
        counted pagination_limit s)
    /\ (pagination_limit < Z.of_nat (length seed) -> sc_batches s = []).
Proof.
  intros Hcap Hlimit.
  destruct (scan_messages_inv world pagination_limit (start_date config)
              (end_date config) stream
              (mkScan config seed (Z.of_nat (length seed)) 0 0
                 (last_read_message_id config) new_state new_handler [] []))
    as (s & Hok & Hcat & Htot & Hskip & Hcount & Hbig); try done.
  { cbn. intros Hz Hnil. rewrite Hnil in Hz. cbn in Hz.
    destruct Hlimit as [Hl | Hs]; [by apply Hl | by apply Hs]. }
  cbn [sc_batches sc_messages_list sc_total_messages sc_skipped_messages
         sc_pagination_count concat app] in *.
  assert (Hdrain : exists r, run = Ok r
            /\ res_batches r
               = sc_batches s ++ match sc_messages_list s with
                                 | [] => []
                                 | l => [l]
                                 end
            /\ Models.total_messages (res_summary r) = sc_total_messages s
            /\ Models.skipped_messages (res_summary r) = sc_skipped_messages s).
  { unfold begin_import.
    change (match ids_to_retry config with [] => [] | _ :: _ => retry_messages end)
      with seed.
    rewrite Hok. cbn [bind].
    destruct (sc_messages_list s) as [| m0 l].
    - cbn [bind]. eexists. split; [reflexivity |]. cbn. by rewrite app_nil_r.
    - destruct (process_messages_cons world m0 l (media_types (sc_config s))
                  (file_formats (sc_config s)) (sc_state s)
                  (Some MAX_CONCURRENT_DOWNLOADS) (Some (sc_error_handler s)))
        as (last & st' & eh' & Hp & _).
      rewrite Hp. cbn [bind]. eexists. split; [reflexivity |]. by cbn. }
  destruct Hdrain as (r & Hr & Hbatches & Htotal & Hskipped).
  exists s, r. split; [exact Hok |]. split; [exact Hr |].
  split; [exact Hcat |]. split; [exact Hbatches |].
  split; [lia |]. split; [lia |]. split.
  - intros Hle. apply Hcount. unfold counted. cbn. split; [| lia].
    intros i b Hi. by rewrite lookup_nil in Hi.
  - intros Hlt. by apply Hbig.
Qed.


(** X12.  Batch sizes.  Without a message cap, with a positive
    [pagination_limit] and no more seeded messages than that, every
    batch but the last is full, where full means [pagination_limit]
    messages for the first batch and [pagination_limit + 1] for every
    later one; the last batch is not larger than that. *)
Theorem begin_import_batch_sizes :
  max_messages config = None ->
  0 < pagination_limit ->
  Z.of_nat (length seed) <= pagination_limit ->
  exists r,
    run = Ok r
    /\ forall i b, res_batches r !! i = Some b ->
         Z.of_nat (length b) <= full_size pagination_limit i
         /\ (S i < length (res_batches r) ->
             Z.of_nat (length b) = full_size pagination_limit i)%nat.
Proof.
  intros Hcap Hpos Hseed.
  destruct (begin_import_scan Hcap ltac:(left; lia))
    as (s & r & Hok & Hr & Hcat & Hb & Htot & Hskip & Hcount & Hbig).
  destruct (Hcount Hseed) as (Hfull & Hlen & Hrange).
  exists r. split; [exact Hr |]. intros i b Hi. rewrite Hb in *.
  apply lookup_app_Some in Hi as [Hi | [Hge Hi]].
  - specialize (Hfull i b Hi). split; [lia | done].
  - destruct (sc_messages_list s) as [| m0 l] eqn:Hlist;
      [by rewrite lookup_nil in Hi |].
    destruct (i - length (sc_batches s))%nat as [| j] eqn:Hj;
      [| simpl in Hi; by rewrite lookup_nil in Hi].
    injection Hi as <-. split; [| rewrite length_app; cbn [length]; lia].
    rewrite Hlen. assert (i = length (sc_batches s)) as -> by lia.
    destruct (sc_batches s); cbn; lia.
Qed.

(** X13.  When more messages are seeded than [pagination_limit] (or the
    limit is negative), the counter never meets the limit: without a
    message cap everything is dispatched as one batch after the scan. *)
Theorem begin_import_single_batch :
  max_messages config = None ->
  pagination_limit < Z.of_nat (length seed) ->
  exists r,
    run = Ok r
    /\ res_batches r
       = match seed ++ kept (end_date config) passed with
         | [] => []
         | l => [l]
         end.
Proof.
  intros Hcap Hlt.
  assert (Hlimit : pagination_limit <> 0 \/ seed <> []).
  { destruct seed; [left; cbn in Hlt; lia | by right]. }
  destruct (begin_import_scan Hcap Hlimit)
    as (s & r & Hok & Hr & Hcat & Hb & Htot & Hskip & Hcount & Hbig).
  exists r. split; [exact Hr |]. rewrite Hb, (Hbig Hlt) in *.
  cbn [concat app] in *. by rewrite Hcat.
Qed.

End Session.


Lemma begin_import_batch_sizes_witness :
  exists r,
    begin_import (fun _ _ => download_ok)
      (mkConfig 0 [] ["photo"] ∅ None None None) 2 [] (text_messages 1 7) 1
    = Ok r
    /\ forall i b, res_batches r !! i = Some b ->
         Z.of_nat (length b) <= full_size 2 i
         /\ (S i < length (res_batches r) ->
             Z.of_nat (length b) = full_size 2 i)%nat.
Proof.
  apply (begin_import_batch_sizes (fun _ _ => download_ok)
           (mkConfig 0 [] ["photo"] ∅ None None None) 2 []
           (text_messages 1 7) 1).
  - reflexivity.
  - reflexivity.
  - discriminate.
Defined.

Lemma begin_import_single_batch_witness :
  exists r,
    begin_import (fun _ _ => download_ok)
      (mkConfig 10 [3; 4; 5] ["photo"] ∅ None None None) 2
      (text_messages 3 3) (text_messages 11 4) 1
    = Ok r
    /\ res_batches r = [text_messages 3 3 ++ text_messages 11 4].
Proof.
  apply (begin_import_single_batch (fun _ _ => download_ok)
           (mkConfig 10 [3; 4; 5] ["photo"] ∅ None None None) 2
           (text_messages 3 3) (text_messages 11 4) 1).
  - reflexivity.
  - reflexivity.
Defined.

Lemma scan_messages_fill world limit b : forall tail s,
  start_date (sc_config s) = None ->
  end_date (sc_config s) = None ->
  sc_pagination_count s + Z.of_nat (length b) <= limit ->
  scan_messages world limit (b ++ tail) s
  = scan_messages world limit tail
      (mkScan (sc_config s) (sc_messages_list s ++ b)
         (sc_pagination_count s + Z.of_nat (length b))
         (sc_total_messages s + Z.of_nat (length b))
         (sc_skipped_messages s) (sc_last_read_message_id s) (sc_state s)
         (sc_error_handler s) (sc_batches s) (sc_saved s)).
Proof.
  induction b as [| m b IH]; intros tail s Hsd Hed Hroom.
  - destruct s. cbn. by rewrite app_nil_r, !Z.add_0_r.
  - cbn [app scan_messages]. rewrite Hsd, Hed.
    assert (Hne : (sc_pagination_count s =? limit) = false).
    { apply Z.eqb_neq. cbn [length] in Hroom. lia. }
    rewrite Hne. cbn [negb]. rewrite IH; cbn; try done.
    + f_equal. f_equal.
      * by rewrite <- app_assoc.
      * lia.
      * lia.
    + cbn [length] in Hroom. lia.
Qed.

(** X14.  The message cap.  With no seed and no date bounds, when the
    first full batch brings the downloads up to [max_messages], the scan
    stops there: the message that triggered the dispatch and everything
    after it is left for the next run, and the drain step dispatches the
    same batch a second time. *)
Theorem begin_import_cap_redispatches (world : Z -> nat -> AttemptEnv)
    (config : Config) (retry_messages : list Message) (duration : Q)
    (cap : Z) (m0 : Message) (batch : list Message) (m : Message)
    (rest : list Message) (last : Z) (state1 : DownloadState)
    (handler1 : option ErrorHandler) :
  seeded config retry_messages = [] ->
  start_date config = None -> end_date config = None ->
  max_messages config = Some cap -> 0 < cap ->
  process_messages world (m0 :: batch) (media_types config)
    (file_formats config) new_state (Some MAX_CONCURRENT_DOWNLOADS)
    (Some new_handler) = Ok (last, state1, handler1) ->
  cap <= Z.of_nat (length (downloaded_ids state1)) ->
  exists r,
    begin_import world config (Z.of_nat (length (m0 :: batch))) retry_messages
      ((m0 :: batch) ++ m :: rest) duration = Ok r
    /\ res_batches r = [m0 :: batch; m0 :: batch]
    /\ Models.total_messages (res_summary r)
       = Z.of_nat (length (m0 :: batch)) + 1.
Proof.
  intros Hseed Hsd Hed Hcap Hpos Hp Hreached. unfold begin_import.
  change (match ids_to_retry config with [] => [] | _ :: _ => retry_messages end)
    with (seeded config retry_messages).
  rewrite Hseed. cbn [length Z.of_nat].
  rewrite scan_messages_fill by (cbn; try done; lia).
  cbn [sc_config sc_messages_list sc_pagination_count sc_total_messages
         sc_skipped_messages sc_last_read_message_id sc_state
         sc_error_handler sc_batches sc_saved app scan_messages].
  rewrite Hsd, Hed. rewrite Z.add_0_l, Z.eqb_refl. cbn [negb].
  rewrite Hp. cbn [bind fst snd].
  assert (Hreach : cap_reached config state1 = true).
  { unfold cap_reached. rewrite Hcap.
    apply andb_true_iff. split; [| by apply Z.leb_le].
    apply negb_true_iff, Z.eqb_neq. lia. }
  rewrite Hreach. cbn [bind sc_messages_list sc_config sc_state
                         sc_error_handler].
  destruct (process_messages_cons world m0 batch (media_types config)
              (file_formats config) state1 (Some MAX_CONCURRENT_DOWNLOADS)
              (Some (default new_handler handler1)))
    as (last' & st' & eh' & Hp' & _).
  rewrite Hp'. cbn [bind]. eexists. split; [reflexivity |].
  cbn. split; [reflexivity |]. lia.
Qed.

Lemma begin_import_cap_redispatches_witness :
  exists r,
    begin_import (fun _ _ => download_ok)
      (mkConfig 0 [] ["photo"] ∅ None None (Some 2)) 2 []
      ([photo_message 1; photo_message 2] ++ photo_message 3 :: [photo_message 4])
      1 = Ok r
    /\ res_batches r
       = [[photo_message 1; photo_message 2];
          [photo_message 1; photo_message 2]]
    /\ Models.total_messages (res_summary r) = 2 + 1.
Proof.
  apply (begin_import_cap_redispatches (fun _ _ => download_ok)
           (mkConfig 0 [] ["photo"] ∅ None None (Some 2)) [] 1 2
           (photo_message 1) [photo_message 2] (photo_message 3)
           [photo_message 4] 2 (mkDownloadState [] [1; 2] 4096)
           (Some new_handler)).
  - reflexivity.
  - reflexivity.
  - reflexivity.
  - reflexivity.
  - reflexivity.
  - vm_compute. reflexivity.
  - vm_compute. discriminate.
Defined.

(** X15.  A run that only retries moves the cursor to the retry ids.
    When the retry list is not empty, the stream yields nothing, and the
    client answers refetches with the message asked for, the retry
    messages are dispatched as one batch and the cursor saved is the
    largest of their ids, whatever the cursor was before. *)
Theorem begin_import_retry_only_cursor (world : Z -> nat -> AttemptEnv)
    (config : Config) (pagination_limit : Z) (m : Message)
    (rest : list Message) (duration : Q) :
  ids_to_retry config <> [] ->
  honest_world world ->
  exists r,
    begin_import world config pagination_limit (m :: rest) [] duration = Ok r
    /\ res_batches r = [m :: rest]
    /\ last_read_message_id (res_config r) ∈ map msg_id (m :: rest)
    /\ (forall m', m' ∈ m :: rest ->
          msg_id m' <= last_read_message_id (res_config r))
    /\ ((forall m', m' ∈ m :: rest -> msg_id m' < last_read_message_id config) ->
        last_read_message_id (res_config r) < last_read_message_id config).
Proof.
  intros Hretry Hworld. unfold begin_import.
  destruct (ids_to_retry config) as [| i0 ids] eqn:Hids; [done |].
  cbn [scan_messages bind sc_messages_list sc_config sc_state sc_error_handler].
  destruct (process_messages_cons world m rest (media_types config)
              (file_formats config) new_state (Some MAX_CONCURRENT_DOWNLOADS)
              (Some new_handler)) as (last & st' & eh' & Hp & Hmax & _).
  rewrite Hp. cbn [bind]. eexists. split; [reflexivity |].
  cbn [res_batches res_config sc_batches app update_config set_last_read
         last_read_message_id sc_last_read_message_id fst snd].
  destruct Hmax as [Hin Hle]; [intros m' _; apply Hworld |].
  split; [done |]. split; [exact Hin |]. split; [exact Hle |].
  intros Hbelow. apply list_elem_of_fmap in Hin as (m' & -> & Hm').
  by apply Hbelow.
Qed.

Lemma begin_import_retry_only_cursor_witness :
  exists r,
    begin_import (fun _ _ => download_ok)
      (mkConfig 1000 [5] ["photo"] ∅ None None None) 100 [photo_message 5] [] 1
    = Ok r
    /\ res_batches r = [[photo_message 5]]
    /\ last_read_message_id (res_config r) = 5.
Proof.
  destruct (begin_import_retry_only_cursor (fun _ _ => download_ok)
              (mkConfig 1000 [5] ["photo"] ∅ None None None) 100
              (photo_message 5) [] 1) as (r & Hr & Hb & Hin & _).
  - discriminate.
  - intros i k m ms H. discriminate H.
  - exists r. split; [exact Hr |]. split; [exact Hb |].
    cbn in Hin. by apply list_elem_of_singleton in Hin.
Defined.

End ScanExtras.

Module ScanFinalExtras.
Import Py State StateFacts StateExtras ErrorHandlerPy Main.
Import DispatcherFacts DispatcherClaims ScanSpec ScanFacts ScanFinal.
Local Open Scope Z_scope.

Lemma download_media_grows env message mt ff st sem eh :
  downloaded_ids st
    ⊆ downloaded_ids (run_state (out_run (download_media env message mt ff st sem eh)))
  /\ failed_ids st
    ⊆ failed_ids (run_state (out_run (download_media env message mt ff st sem eh))).
Proof.
  destruct (download_media_outcome env message mt ff st sem eh)
    as (i & _ & _ & Hcases).
  destruct Hcases as [-> | [[n ->] | ->]].
  - done.
  - split.
    + intros j Hj. apply downloaded_ids_mark_downloaded. by left.
    + by rewrite failed_ids_mark_downloaded.
  - split.
    + by rewrite downloaded_ids_mark_failed.
    + intros j Hj. apply failed_ids_mark_failed. by left.
Qed.

Lemma gather_grows world messages mt ff sem : forall st eh ids st' eh',
  gather world messages mt ff st sem eh = Ok (ids, st', eh') ->
  downloaded_ids st ⊆ downloaded_ids st' /\ failed_ids st ⊆ failed_ids st'.
Proof.
  induction messages as [| m rest IH]; intros st eh ids st' eh' Hg.
  - injection Hg as _ <- _. done.
  - cbn [gather] in Hg.
    destruct (out_result _) as [i |]; [| discriminate Hg]. cbn [bind] in Hg.
    destruct (gather world rest _ _ _ _ _) as [[[ids1 st1] eh1] |] eqn:Hrest;
      [| discriminate Hg].
    cbn [bind fst snd] in Hg. injection Hg as _ <- _.
    destruct (IH _ _ _ _ _ Hrest) as [Hd Hf].
    destruct (download_media_grows (world (msg_id m)) m mt ff st sem eh)
      as [Hd0 Hf0].
    split; etrans; eauto.
Qed.

Lemma process_messages_grows world messages mt ff sem st eh last st' eh' :
  process_messages world messages mt ff st sem eh = Ok (last, st', eh') ->
  downloaded_ids st ⊆ downloaded_ids st' /\ failed_ids st ⊆ failed_ids st'.
Proof.
  unfold process_messages. intros Hp.
  destruct (gather _ _ _ _ _ _ _) as [[[ids st1] eh1] |] eqn:Hg;
    [| discriminate Hp].
  cbn [bind fst snd] in Hp.
  destruct (py_max ids) as [y |]; [| discriminate Hp].
  cbn [bind] in Hp. injection Hp as _ <- _. by eapply gather_grows.
Qed.

Lemma retry_snapshot_grows previous s s' :
  retry_snapshot previous s ->
  ids_to_retry (sc_config s') = ids_to_retry (sc_config s) ->
  downloaded_ids (sc_state s) ⊆ downloaded_ids (sc_state s') ->
  failed_ids (sc_state s) ⊆ failed_ids (sc_state s') ->
  retry_snapshot previous s'.
Proof.
  intros (D & F & HD & HF & Hset) Hids Hd Hf. exists D, F.
  rewrite Hids. split; [| split; [| done]]; set_solver.
Qed.

Lemma retry_snapshot_update previous s s' :
  retry_snapshot previous s ->
  ids_to_retry (sc_config s')
  = get_retry_ids (sc_state s') (ids_to_retry (sc_config s)) ->
  downloaded_ids (sc_state s) ⊆ downloaded_ids (sc_state s') ->
  failed_ids (sc_state s) ⊆ failed_ids (sc_state s') ->
  (list_to_set (ids_to_retry (sc_config s')) : gset Z)
  = (list_to_set previous ∖ list_to_set (downloaded_ids (sc_state s')))
      ∪ list_to_set (failed_ids (sc_state s')).
Proof.
  intros (D & F & HD & HF & Hset) Hids Hd Hf. rewrite Hids.
  rewrite (get_retry_ids_as_set (sc_state s') (ids_to_retry (sc_config s))).
  rewrite Hset. apply set_eq. intros x.
  rewrite !elem_of_union, !elem_of_difference, !elem_of_union,
    !elem_of_difference, !elem_of_list_to_set.
  assert (x ∈ D -> x ∈ downloaded_ids (sc_state s')).
  { intros Hx. apply Hd. apply (elem_of_list_to_set (C := gset Z)).
    by apply HD. }
  assert (x ∈ F -> x ∈ failed_ids (sc_state s')).
  { intros Hx. apply Hf. apply (elem_of_list_to_set (C := gset Z)).
    by apply HF. }
  tauto.
Qed.

Lemma scan_messages_snapshot world limit previous stream : forall s s',
  scan_messages world limit stream s = Ok s' ->
  retry_snapshot previous s -> retry_snapshot previous s'.
Proof.
  induction stream as [| m rest IH]; intros s s' Hscan Hsnap.
  - injection Hscan as <-. done.
  - cbn [scan_messages] in Hscan.
    destruct (match end_date (sc_config s) with
              | Some d => d <? msg_date m | None => false end).
    { eapply IH; [exact Hscan |]. by eapply retry_snapshot_grows. }
    destruct (match start_date (sc_config s) with
              | Some d => msg_date m <? d | None => false end).
    { injection Hscan as <-. by eapply retry_snapshot_grows. }
    destruct (negb (sc_pagination_count s =? limit)).
    { eapply IH; [exact Hscan |]. by eapply retry_snapshot_grows. }
    destruct (process_messages _ _ _ _ _ _ _) as [[[last st'] eh'] |] eqn:Hp;
      [| discriminate Hscan].
    cbn [bind fst snd] in Hscan.
    destruct (process_messages_grows _ _ _ _ _ _ _ _ _ _ Hp) as [Hd Hf].
    destruct (cap_reached (sc_config s) st').
    { injection Hscan as <-. by eapply retry_snapshot_grows. }
    eapply IH; [exact Hscan |].
    destruct (Z.of_nat (length (downloaded_ids st')) mod 50 =? 0).
    + match goal with
      | |- retry_snapshot _ ?s1 =>
          exists (list_to_set (downloaded_ids st')),
                 (list_to_set (failed_ids st'));
          split; [done |]; split; [done |];
          apply (retry_snapshot_update previous s s1 Hsnap); done
      end.
    + by eapply retry_snapshot_grows.
Qed.

(** X16.  What [begin_import] saves in the end.  Whenever the scan and
    the trailing dispatch go through, [begin_import] returns; the retry
    list it saves is, as a set, the previous retry ids without the ids
    downloaded in this run, together with the ids failed in this run --
    however often the list was saved in between -- so every failed id
    and every previous id not downloaded is kept; the summary counts the
    entries of the two id lists.  When the scan or the trailing dispatch
    raises, [begin_import] raises the same exception. *)
Theorem begin_import_retry_list (world : Z -> nat -> AttemptEnv)
    (config : Config) (pagination_limit : Z)
    (retry_messages stream : list Message) (duration : Q) :
  match import_scan world config pagination_limit retry_messages stream with
  | Ok s =>
      exists r,
        begin_import world config pagination_limit retry_messages stream
          duration = Ok r
        /\ (list_to_set (ids_to_retry (res_config r)) : gset Z)
           = (list_to_set (ids_to_retry config)
                ∖ list_to_set (downloaded_ids (sc_state s)))
               ∪ list_to_set (failed_ids (sc_state s))
        /\ (forall i, i ∈ failed_ids (sc_state s) ->
              i ∈ ids_to_retry (res_config r))
        /\ (forall i, i ∈ ids_to_retry config ->
              i ∉ downloaded_ids (sc_state s) ->
              i ∈ ids_to_retry (res_config r))
        /\ last_read_message_id (res_config r) = sc_last_read_message_id s
        /\ Models.successful_downloads (res_summary r)
           = Z.of_nat (length (downloaded_ids (sc_state s)))
        /\ Models.failed_downloads (res_summary r)
           = Z.of_nat (length (failed_ids (sc_state s)))
        /\ Models.total_size_bytes (res_summary r)
           = total_size_bytes (sc_state s)
  | Raise e =>
      begin_import world config pagination_limit retry_messages stream
        duration = Raise e
  end.
Proof.
  unfold import_scan, begin_import.
  destruct (scan_messages _ _ _ _) as [s1 | e] eqn:Hscan; [| reflexivity].
  cbn [bind].
  assert (Hsnap1 : retry_snapshot (ids_to_retry config) s1).
  { eapply scan_messages_snapshot; [exact Hscan |].
    exists ∅, ∅. cbn. split; [done |]. split; [done |]. set_solver. }
  assert (Hfinal : forall s,
    retry_snapshot (ids_to_retry config) s ->
    (list_to_set (ids_to_retry
       (update_config (set_last_read (sc_config s) (sc_last_read_message_id s))
          (sc_state s))) : gset Z)
    = (list_to_set (ids_to_retry config)
         ∖ list_to_set (downloaded_ids (sc_state s)))
        ∪ list_to_set (failed_ids (sc_state s))).
  { intros s Hs.
    apply (retry_snapshot_update (ids_to_retry config) s
             (mkScan (update_config
                        (set_last_read (sc_config s) (sc_last_read_message_id s))
                        (sc_state s))
                [] 0 0 0 0 (sc_state s) new_handler [] []) Hs); done. }
  assert (Hresult : forall s, retry_snapshot (ids_to_retry config) s ->
    exists r,
      Ok (mkImportResult
            (update_config
               (set_last_read (sc_config s) (sc_last_read_message_id s))
               (sc_state s))
            (Models.mkDownloadSummary (sc_total_messages s)
               (Z.of_nat (length (downloaded_ids (sc_state s))))
               (Z.of_nat (length (failed_ids (sc_state s))))
               (sc_skipped_messages s) (total_size_bytes (sc_state s)) duration)
            (sc_batches s)
            (sc_saved s ++
               [update_config
                  (set_last_read (sc_config s) (sc_last_read_message_id s))
                  (sc_state s)])) = Ok r
      /\ (list_to_set (ids_to_retry (res_config r)) : gset Z)
         = (list_to_set (ids_to_retry config)
              ∖ list_to_set (downloaded_ids (sc_state s)))
             ∪ list_to_set (failed_ids (sc_state s))
      /\ (forall i, i ∈ failed_ids (sc_state s) ->
            i ∈ ids_to_retry (res_config r))
      /\ (forall i, i ∈ ids_to_retry config ->
            i ∉ downloaded_ids (sc_state s) ->
            i ∈ ids_to_retry (res_config r))
      /\ last_read_message_id (res_config r) = sc_last_read_message_id s
      /\ Models.successful_downloads (res_summary r)
         = Z.of_nat (length (downloaded_ids (sc_state s)))
      /\ Models.failed_downloads (res_summary r)
         = Z.of_nat (length (failed_ids (sc_state s)))
      /\ Models.total_size_bytes (res_summary r)
         = total_size_bytes (sc_state s)).
  { intros s Hs. eexists. split; [reflexivity |].
    cbn [res_config res_summary Models.successful_downloads
           Models.failed_downloads Models.total_size_bytes].
    pose proof (Hfinal s Hs) as Hset.
    split; [exact Hset |]. split; [| split].
    - intros i Hi. apply (elem_of_list_to_set (C := gset Z)).
      rewrite Hset. set_solver.
    - intros i Hi Hd. apply (elem_of_list_to_set (C := gset Z)).
      rewrite Hset. set_solver.
    - done. }
  destruct (sc_messages_list s1) as [| m0 l] eqn:Hlist.
  - cbn [bind]. by apply Hresult.
  - destruct (process_messages _ _ _ _ _ _ _) as [[[last st'] eh'] | e] eqn:Hp;
      [| reflexivity].
    cbn [bind fst snd].
    destruct (process_messages_grows _ _ _ _ _ _ _ _ _ _ Hp) as [Hd Hf].
    apply (Hresult
             (mkScan (sc_config s1) (m0 :: l) (sc_pagination_count s1)
                (sc_total_messages s1) (sc_skipped_messages s1) last st'
                (default (sc_error_handler s1) eh')
                (sc_batches s1 ++ [m0 :: l]) (sc_saved s1))).
    by eapply retry_snapshot_grows.
Qed.

End ScanFinalExtras.

Module NextNameExtras.
Import FileManagement NextName.
Local Open Scope string_scope.

Lemma string_length_app (a b : string) :
  String.length (a ++ b) = (String.length a + String.length b)%nat.
Proof. induction a as [| x a IH]; simpl; [done | by rewrite IH]. Qed.

Lemma string_app_inj_r (s a b : string) : a ++ s = b ++ s -> a = b.
Proof.
  revert b. induction a as [| x a IH]; intros [| y b] H.
  - done.
  - apply (f_equal String.length) in H.
    rewrite !string_length_app in H. simpl in H. lia.
  - apply (f_equal String.length) in H.
    rewrite !string_length_app in H. simpl in H. lia.
  - injection H as -> H. f_equal. by apply IH.
Qed.

Lemma new_file_name_inj file_path : Inj (=) (=) (new_file_name file_path).
Proof.
  intros c c' H. unfold new_file_name in H.
  do 4 apply String.app_inj in H.
  apply string_app_inj_r in H. by apply (inj pretty) in H.
Qed.

Lemma isfile_paths fs p : isfile fs p = true -> p ∈ fs_paths fs.
Proof.
  unfold isfile. induction fs as [| [q e] fs IH]; simpl; [done |].
  destruct (String.eqb_spec p q) as [-> | _]; [intros _; by left |].
  intros H. right. by apply IH.
Qed.

Lemma isfile_not_paths fs p : isfile fs p = false -> p ∉ fs_paths fs.
Proof.
  unfold isfile. induction fs as [| [q e] fs IH]; cbn [fs_find fs_paths map fst].
  - intros _. apply not_elem_of_nil.
  - destruct (String.eqb_spec p q) as [-> | Hne]; [done |].
    intros H Hin. apply elem_of_cons in Hin as [-> | Hin]; [done |].
    by apply IH.
Qed.

(** Only as many of the names can be taken as there are files. *)
Lemma taken_names_bound fs file_path (n : nat) :
  (forall k, (1 <= k <= Z.of_nat n)%Z ->
     isfile fs (new_file_name file_path k) = true) ->
  (n <= length fs)%nat.
Proof.
  intros Htaken.
  set (l := map (fun i => new_file_name file_path (Z.of_nat i + 1)) (seq 0 n)).
  assert (Hnodup : NoDup l).
  { apply NoDup_fmap_2; [| apply NoDup_seq].
    intros i j H. apply new_file_name_inj in H. lia. }
  assert (Hsub : forall x, x ∈ l -> x ∈ fs_paths fs).
  { intros x Hx. apply list_elem_of_fmap in Hx as (i & -> & Hi).
    apply elem_of_seq in Hi. apply isfile_paths, Htaken. lia. }
  pose proof (submseteq_length _ _ (NoDup_submseteq _ _ Hnodup Hsub)) as Hlen.
  unfold l, fs_paths in Hlen. by rewrite !length_map, length_seq in Hlen.
Qed.

Lemma next_counter_spec fs file_path : forall fuel counter,
  (1 <= counter)%Z ->
  (forall k, (1 <= k < counter)%Z ->
     isfile fs (new_file_name file_path k) = true) ->
  (Z.of_nat (length fs) + 1 < Z.of_nat fuel + counter)%Z ->
  exists c,
    next_counter fuel fs file_path counter = Some c
    /\ (counter <= c)%Z
    /\ isfile fs (new_file_name file_path c) = false
    /\ (forall k, (1 <= k < c)%Z ->
          isfile fs (new_file_name file_path k) = true).
Proof.
  induction fuel as [| fuel IH]; intros counter Hpos Htaken Hfuel.
  - exfalso.
    assert (H : (Z.to_nat (counter - 1) <= length fs)%nat).
    { apply (taken_names_bound fs file_path). intros k Hk. apply Htaken. lia. }
    lia.
  - cbn [next_counter].
    destruct (isfile fs (new_file_name file_path counter)) eqn:Hfile.
    + destruct (IH (counter + 1)%Z) as (c & Hc & Hle & Hfree & Hall).
      * lia.
      * intros k Hk. destruct (decide (k = counter)) as [-> | Hne]; [done |].
        apply Htaken. lia.
      * lia.
      * exists c. repeat split; [done | lia | done | done].
    + exists counter. repeat split; [lia | done | done].
Qed.

(** X17.  [get_next_name] always returns: the loop stops after at most
    one test more than there are files.  The path returned is
    [parent/stem-copyN] followed by the suffixes, it is not the path of a
    file, and [N] is the least counter from 1 on with that property; so
    [N] is at most the number of files plus one. *)
Theorem get_next_name_fresh (fs : FileSystem) (file_path : string) :
  exists counter : Z,
    get_next_name fs file_path = Some (new_file_name file_path counter)
    /\ (forall fuel, (length fs < fuel)%nat ->
          next_counter fuel fs file_path 1 = Some counter)
    /\ (1 <= counter <= Z.of_nat (length fs) + 1)%Z
    /\ isfile fs (new_file_name file_path counter) = false
    /\ (new_file_name file_path counter ∉ fs_paths fs)
    /\ (forall k, (1 <= k < counter)%Z ->
          new_file_name file_path k ∈ fs_paths fs).
Proof.
  assert (Hrun : forall fuel, (length fs < fuel)%nat ->
            exists c,
              next_counter fuel fs file_path 1 = Some c
              /\ (1 <= c)%Z
              /\ isfile fs (new_file_name file_path c) = false
              /\ (forall k, (1 <= k < c)%Z ->
                    isfile fs (new_file_name file_path k) = true)).
  { intros fuel Hfuel. apply next_counter_spec; [lia | intros; lia | lia]. }
  destruct (Hrun (S (length fs))) as (c & Hc & Hpos & Hfree & Hall); [lia |].
  exists c. unfold get_next_name. rewrite Hc.
  split; [done |]. split.
  { intros fuel Hfuel.
    destruct (Hrun fuel Hfuel) as (c' & Hc' & Hpos' & Hfree' & Hall').
    rewrite Hc'. f_equal.
    destruct (Z.lt_trichotomy c' c) as [Hlt | [Heq | Hgt]]; [| done |].
    - rewrite Hall in Hfree'; [done | lia].
    - rewrite Hall' in Hfree; [done | lia]. }
  split.
  { split; [done |].
    assert (H : (Z.to_nat (c - 1) <= length fs)%nat).
    { apply (taken_names_bound fs file_path). intros k Hk. apply Hall. lia. }
    lia. }
  split; [done |]. split.
  - by apply isfile_not_paths.
  - intros k Hk. by apply isfile_paths, Hall.
Qed.

(** *** The shape of the name *)

Local Abbreviation L := list_ascii_of_string.

Lemma L_app (a b : string) : L (a ++ b) = (L a ++ L b)%list.
Proof. induction a as [| x a IH]; simpl; [done | by rewrite IH]. Qed.

Lemma string_app_nil_r (a : string) : a ++ "" = a.
Proof.
  induction a as [| x a IH]; [done |].
  change (String x (a ++ "") = String x a). by rewrite IH.
Qed.

Lemma string_app_assoc (a b c : string) : (a ++ b) ++ c = a ++ b ++ c.
Proof.
  induction a as [| x a IH]; [done |].
  change (String x ((a ++ b) ++ c) = String x (a ++ b ++ c)). by rewrite IH.
Qed.

Lemma concat_empty_cons (x : string) (xs : list string) :
  String.concat "" (x :: xs) = x ++ String.concat "" xs.
Proof.
  destruct xs; [| done].
  change (x = x ++ ""). by rewrite string_app_nil_r.
Qed.

Lemma L_concat_dotted (exts : list string) :
  L (String.concat "" (dotted exts)) = flat exts.
Proof.
  induction exts as [| e exts IH]; [done |].
  unfold dotted, flat in *. cbn [map List.concat].
  rewrite concat_empty_cons, L_app, IH. done.
Qed.

Lemma L_inj (a b : string) : L a = L b -> a = b.
Proof.
  intros H. rewrite <- (string_of_list_ascii_of_string a),
    <- (string_of_list_ascii_of_string b). by rewrite H.
Qed.

Lemma flat_app (xs ys : list string) : flat (xs ++ ys) = (flat xs ++ flat ys)%list.
Proof. unfold flat. by rewrite map_app, concat_app. Qed.

Lemma split_on_free (c : ascii) (l : list ascii) : c ∉ l -> split_on c l = [l].
Proof.
  induction l as [| x l IH]; [done |]. intros Hc. cbn [split_on].
  apply not_elem_of_cons in Hc as [Hne Hc].
  destruct (Ascii.eqb_spec x c) as [-> | _]; [done |]. by rewrite IH.
Qed.

Lemma split_on_sep (c : ascii) (a rest : list ascii) :
  c ∉ a -> split_on c (a ++ c :: rest) = a :: split_on c rest.
Proof.
  induction a as [| x a IH]; intros Hc; cbn [app split_on].
  - by rewrite Ascii.eqb_refl.
  - apply not_elem_of_cons in Hc as [Hne Hc].
    destruct (Ascii.eqb_spec x c) as [-> | _]; [done |]. by rewrite IH.
Qed.

Lemma split_on_flat (exts : list string) : forall a : list ascii,
  "."%char ∉ a -> Forall (fun e => e <> "" /\ dot_free e) exts ->
  split_on "." (a ++ flat exts) = a :: map L exts.
Proof.
  induction exts as [| e exts IH]; intros a Ha Hexts.
  - unfold flat. cbn [map List.concat]. rewrite app_nil_r.
    by apply split_on_free.
  - apply Forall_cons in Hexts as [[_ He] Hexts].
    unfold flat. cbn [map List.concat]. cbn [app].
    rewrite split_on_sep by done. f_equal.
    apply (IH (L e)); done.
Qed.

Lemma rfind_dot_free (l : list ascii) : "."%char ∉ l -> rfind_dot l = None.
Proof.
  induction l as [| x l IH]; [done |]. intros Hc. cbn [rfind_dot].
  apply not_elem_of_cons in Hc as [Hne Hc]. rewrite IH by done.
  by destruct (Ascii.eqb_spec x ".").
Qed.

Lemma rfind_dot_last (pre e : list ascii) :
  "."%char ∉ e -> rfind_dot (pre ++ "."%char :: e) = Some (length pre).
Proof.
  intros He. induction pre as [| x pre IH]; cbn [app rfind_dot length].
  - by rewrite rfind_dot_free.
  - by rewrite IH.
Qed.

Lemma ends_with_dot_snoc (l : list ascii) (x : ascii) :
  ends_with_dot (l ++ [x]) = Ascii.eqb x ".".
Proof.
  induction l as [| y l IH]; [done |]. cbn [app ends_with_dot].
  rewrite IH. by destruct (l ++ [x])%list eqn:E; [destruct l |].
Qed.

Lemma ends_with_dot_free (l : list ascii) :
  "."%char ∉ l -> ends_with_dot l = false.
Proof.
  destruct l as [| x l] using rev_ind; [done |]. intros Hc.
  rewrite ends_with_dot_snoc.
  destruct (Ascii.eqb_spec x ".") as [-> | _]; [| done].
  exfalso. apply Hc. apply elem_of_app. right. by left.
Qed.

Lemma ends_with_dot_app (a b : list ascii) :
  b <> [] -> ends_with_dot (a ++ b) = ends_with_dot b.
Proof.
  intros Hb. destruct b as [| x b] using rev_ind; [done |].
  by rewrite app_assoc, !ends_with_dot_snoc.
Qed.

Lemma flat_snoc (init : list string) (e : string) :
  flat (init ++ [e]) = (flat init ++ "."%char :: L e)%list.
Proof. rewrite flat_app. unfold flat at 2. cbn. by rewrite app_nil_r. Qed.

Lemma L_nonempty (s : string) : s <> "" -> L s <> [].
Proof. by destruct s. Qed.

(** X18.  The name [get_next_name] builds, for a file name
    [base.e1. ... .en] whose pieces are not empty and hold no dot: the
    stem is the name without [.en], the suffixes are all of
    [.e1 ... .en], and so the new name is
    [base.e1. ... .e(n-1)-copyN.e1. ... .en] -- with two suffixes or
    more, the inner ones are there twice. *)
Theorem new_file_name_shape (file_path base : string) (exts : list string)
    (counter : Z) :
  name file_path = base ++ String.concat "" (dotted exts) ->
  base <> "" -> dot_free base ->
  Forall (fun e => e <> "" /\ dot_free e) exts ->
  stem file_path = base ++ String.concat "" (dotted (removelast exts))
  /\ suffixes file_path = dotted exts
  /\ new_file_name file_path counter
     = parent file_path ++ "/" ++ base
       ++ String.concat "" (dotted (removelast exts))
       ++ "-copy" ++ pretty counter ++ String.concat "" (dotted exts).
Proof.
  intros Hname Hbase Hfree Hexts.
  assert (Hn : L (name file_path) = (L base ++ flat exts)%list).
  { by rewrite Hname, L_app, L_concat_dotted. }
  assert (Hstem :
    stem file_path = base ++ String.concat "" (dotted (removelast exts))).
  { unfold stem. rewrite Hn.
    destruct exts as [| e exts _] using rev_ind.
    - unfold flat. cbn [map List.concat removelast dotted String.concat].
      rewrite app_nil_r, rfind_dot_free by done.
      exact Hname.
    - apply Forall_app in Hexts as [Hinit He].
      apply Forall_singleton in He as [Hne He].
      rewrite removelast_last, flat_snoc, app_assoc, rfind_dot_last by done.
      assert (Hlen : (0 < length (L base ++ flat exts))%nat).
      { rewrite length_app. pose proof (L_nonempty base Hbase).
        destruct (L base); [done | simpl; lia]. }
      assert (Hlen' : (0 < length (L e))%nat).
      { pose proof (L_nonempty e Hne). destruct (L e); [done | simpl; lia]. }
      replace (0 <? length (L base ++ flat exts))%nat with true
        by (symmetry; apply Nat.ltb_lt; lia).
      replace (length (L base ++ flat exts)
               <? length ((L base ++ flat exts) ++ "."%char :: L e) - 1)%nat
        with true
        by (symmetry; apply Nat.ltb_lt; rewrite (length_app (L base ++ flat exts));
            simpl; lia).
      cbn [andb]. rewrite take_app_length.
      apply L_inj. rewrite list_ascii_of_string_of_list_ascii.
      by rewrite L_app, L_concat_dotted. }
  assert (Hsuf : suffixes file_path = dotted exts).
  { unfold suffixes. rewrite Hn.
    assert (Hend : ends_with_dot (L base ++ flat exts) = false).
    { destruct exts as [| e exts _] using rev_ind.
      - unfold flat. cbn [map List.concat]. rewrite app_nil_r.
        by apply ends_with_dot_free.
      - apply Forall_app in Hexts as [_ He].
        apply Forall_singleton in He as [Hne He].
        rewrite flat_snoc, app_assoc.
        rewrite (ends_with_dot_app _ ("."%char :: L e)) by done.
        pose proof (L_nonempty e Hne) as HLe.
        change ("."%char :: L e) with (["."%char] ++ L e)%list.
        rewrite (ends_with_dot_app ["."%char] (L e) HLe).
        by apply ends_with_dot_free. }
    rewrite Hend.
    assert (Hstrip : lstrip_dots (L base ++ flat exts) = (L base ++ flat exts)%list).
    { pose proof (L_nonempty base Hbase) as HLb. unfold dot_free in Hfree.
      destruct (L base) as [| x l]; [done |]. cbn [app lstrip_dots].
      apply not_elem_of_cons in Hfree as [Hx _].
      by destruct (Ascii.eqb_spec x ".") as [-> | _]. }
    rewrite Hstrip, (split_on_flat exts (L base) Hfree Hexts). cbn [tail].
    unfold dotted. rewrite map_map. apply map_ext. intros e.
    by rewrite string_of_list_ascii_of_string. }
  split; [exact Hstem |]. split; [exact Hsuf |].
  unfold new_file_name. by rewrite Hstem, Hsuf, string_app_assoc.
Qed.

(** On [archive.tar.gz] the first copy is [archive.tar-copy1.tar.gz]. *)
Lemma new_file_name_shape_witness :
  name "/out/archive.tar.gz" = "archive" ++ String.concat "" (dotted ["tar"; "gz"])
  /\ new_file_name "/out/archive.tar.gz" 1 = "/out/archive.tar-copy1.tar.gz".
Proof.
  split; [reflexivity |].
  assert (Hfree : forall s, bool_decide (dot_free s) = true -> dot_free s).
  { intros s H. by apply bool_decide_eq_true in H. }
  destruct (new_file_name_shape "/out/archive.tar.gz" "archive" ["tar"; "gz"] 1)
    as (_ & _ & ->).
  - reflexivity.
  - discriminate.
  - apply Hfree. reflexivity.
  - repeat constructor; try discriminate; apply Hfree; reflexivity.
  - reflexivity.
Defined.

End NextNameExtras.
Module FileManagementExtras.
Import FileManagement FileManagementFacts.
Local Open Scope string_scope.

Lemma fs_find_remove fs p fs' q :
  fs_remove fs p = Some fs' -> q <> p -> fs_find fs' q = fs_find fs q.
Proof.
  unfold fs_remove. destruct (fs_find fs p) as [e |]; [| done].
  destruct (removable e); [| done]. intros [= <-] Hne.
  induction fs as [| [q' e'] fs IH]; [done |]. cbn [List.filter fst].
  destruct (String.eqb_spec p q') as [<- | Hp]; cbn [negb fs_find].
  - destruct (String.eqb_spec q p) as [-> | _]; [done | exact IH].
  - by rewrite IH.
Qed.

Lemma remove_first_subseteq x l y : y ∈ remove_first x l -> y ∈ l.
Proof.
  induction l as [| z l IH]; simpl; [done |].
  destruct (String.eqb_spec x z) as [-> | _]; intros H.
  - by right.
  - apply elem_of_cons in H as [-> | H]; [by left | right; by apply IH].
Qed.

Section WithLibraries.

Variable md5_state : Type.
Variable md5 : md5_state.
Variable md5_update : md5_state -> list byte -> md5_state.
Variable md5_hexdigest : md5_state -> string.
Variable glob : FileSystem -> string -> list string.

Local Abbreviation hash :=
  (calculate_file_hash md5_state md5 md5_update md5_hexdigest).
Local Abbreviation check :=
  (check_old_files md5_state md5 md5_update md5_hexdigest).
Local Abbreviation manage :=
  (manage_duplicate_file md5_state md5 md5_update md5_hexdigest glob).

Lemma hash_remove fs p fs' q :
  fs_remove fs p = Some fs' -> q <> p -> hash fs' q = hash fs q.
Proof.
  intros Hrm Hne. unfold calculate_file_hash, fs_read.
  by rewrite (fs_find_remove fs p fs' q Hrm Hne).
Qed.

Lemma check_old_files_cases fs p h olds :
  (check fs p h olds = (p, fs))
  \/ (exists r fs', check fs p h olds = (r, fs') /\ r ∈ olds
        /\ fs_remove fs p = Some fs' /\ hash fs r = Some h).
Proof.
  induction olds as [| c olds IH]; [by left |]. cbn [check_old_files].
  assert (Hrest :
    check fs p h olds = (p, fs)
    \/ (exists r fs', check fs p h olds = (r, fs') /\ r ∈ c :: olds
          /\ fs_remove fs p = Some fs' /\ hash fs r = Some h)).
  { destruct IH as [H | (r & fs' & H & Hin & Hrm & Hh)]; [by left |].
    right. exists r, fs'. repeat split; [done | by right | done | done]. }
  destruct (hash fs c) as [h' |] eqn:Hc; [| exact Hrest].
  destruct (String.eqb_spec h h') as [<- | _]; [| exact Hrest].
  destruct (fs_remove fs p) as [fs' |] eqn:Hrm; [| by left].
  right. exists c, fs'. repeat split; [by left | done].
Qed.


End WithLibraries.


End FileManagementExtras.

Module MessageExportExtras.
Import Main MessageExport.
Local Open Scope Z_scope.
Local Open Scope list_scope.

Lemma merge_fresh (existing serialized : list Entry) :
  merge existing serialized = existing ++ fresh existing serialized.
Proof.
  unfold merge, fresh.
  assert (H : forall acc,
    fold_left
      (fun existing0 msg =>
         if bool_decide
              (entry_message_id msg
                 ∉ (list_to_set (map entry_message_id existing) : gset Z))
         then existing0 ++ [msg] else existing0)
      serialized acc
    = acc ++ List.filter
               (fun msg => bool_decide (entry_message_id msg ∉ ids existing))
               serialized).
  { induction serialized as [| msg rest IH]; intros acc; cbn [fold_left List.filter].
    - by rewrite app_nil_r.
    - rewrite IH.
      rewrite (bool_decide_ext
                 (entry_message_id msg
                    ∉ (list_to_set (map entry_message_id existing) : gset Z))
                 (entry_message_id msg ∉ ids existing))
        by (unfold ids; by rewrite elem_of_list_to_set).
      destruct (bool_decide (entry_message_id msg ∉ ids existing));
        [by rewrite <- app_assoc | done]. }
  apply H.
Qed.

Lemma ids_serialized (messages : list MessageView) :
  ids (map serialize_message messages) = view_ids messages.
Proof. unfold ids, view_ids. rewrite map_map. done. Qed.

Lemma ids_app (a b : list Entry) : ids (a ++ b) = ids a ++ ids b.
Proof. apply map_app. Qed.

Lemma elem_of_ids_fresh existing serialized i :
  i ∈ ids (fresh existing serialized)
  <-> i ∈ ids serialized /\ i ∉ ids existing.
Proof.
  unfold fresh. split.
  - intros H. apply list_elem_of_fmap in H as (e & -> & He).
    apply list_elem_of_In, filter_In in He as [He Hb].
    apply bool_decide_eq_true in Hb. split; [| done].
    apply list_elem_of_fmap. exists e. split; [done | by apply list_elem_of_In].
  - intros [H Hno]. apply list_elem_of_fmap in H as (e & -> & He).
    apply list_elem_of_fmap. exists e. split; [done |].
    apply list_elem_of_In, filter_In. split; [by apply list_elem_of_In |].
    by apply bool_decide_eq_true.
Qed.

Lemma fresh_none existing serialized :
  (forall i, i ∈ ids serialized -> i ∈ ids existing) ->
  fresh existing serialized = [].
Proof.
  intros Hall. unfold fresh. induction serialized as [| e rest IH]; [done |].
  cbn [List.filter]. rewrite bool_decide_eq_false_2.
  - apply IH. intros i Hi. apply Hall. unfold ids in *. cbn [map]. by right.
  - intros Hno. apply Hno, Hall. unfold ids. cbn [map]. by left.
Qed.

Lemma fresh_all existing serialized :
  (forall i, i ∈ ids serialized -> i ∉ ids existing) ->
  fresh existing serialized = serialized.
Proof.
  intros Hall. unfold fresh. induction serialized as [| e rest IH]; [done |].
  cbn [List.filter]. rewrite bool_decide_eq_true_2.
  - f_equal. apply IH. intros i Hi. apply Hall. unfold ids in *. cbn [map].
    by right.
  - apply Hall. unfold ids. cbn [map]. by left.
Qed.

(** X20.  The merge of [save_messages_to_json].  With [append], the file
    written holds the entries already there, unchanged and in place,
    followed by those entries of the batch, in order, whose id was not in
    the file before; a missing file and one that is not JSON count as
    empty.  The ids in the file are then those of the old file and of the
    batch; saving the same batch again changes nothing.  Without
    [append], the file holds the batch and nothing else. *)
Theorem save_messages_to_json_merge (messages : list MessageView)
    (file : ExportFile) :
  let serialized := map serialize_message messages in
  let saved := save_messages_to_json messages file true in
  saved = load file ++ fresh (load file) serialized
  /\ load Missing = [] /\ load NotJson = []
  /\ (forall i, i ∈ ids saved <-> i ∈ ids (load file) \/ i ∈ view_ids messages)
  /\ save_messages_to_json messages (Entries saved) true = saved
  /\ save_messages_to_json messages file false = serialized.
Proof.
  cbn zeta. unfold save_messages_to_json. rewrite !merge_fresh.
  split; [done |]. split; [done |]. split; [done |]. split; [| split; [| done]].
  - intros i. rewrite ids_app, elem_of_app, elem_of_ids_fresh, ids_serialized.
    destruct (decide (i ∈ ids (load file))); tauto.
  - cbn [load].
    rewrite (fresh_none
               (load file ++ fresh (load file) (map serialize_message messages)));
      [by rewrite app_nil_r |].
    intros i Hi. rewrite ids_app, elem_of_app, elem_of_ids_fresh.
    destruct (decide (i ∈ ids (load file))); tauto.
Qed.

(** X21.  Ids repeated within one batch.  The file written has no id
    twice exactly when the old file had none twice and the entries the
    merge appends have none twice: the ids of the batch are checked
    against the old file only, not against each other.  So a message
    handed over twice in one batch, with an id new to the file, is
    written twice. *)
Theorem save_messages_to_json_repeats (messages : list MessageView)
    (file : ExportFile) :
  (NoDup (ids (save_messages_to_json messages file true))
   <-> NoDup (ids (load file))
       /\ NoDup (ids (fresh (load file) (map serialize_message messages))))
  /\ (forall m, msg_id (view_message m) ∉ ids (load file) ->
        save_messages_to_json [m; m] file true
        = load file ++ [serialize_message m; serialize_message m]).
Proof.
  unfold save_messages_to_json. split.
  - rewrite merge_fresh, ids_app, NoDup_app. split.
    + intros (H1 & _ & H2). done.
    + intros [H1 H2]. split; [done |]. split; [| done].
      intros i Hi Hfresh. apply elem_of_ids_fresh in Hfresh as [_ Hno]. done.
  - intros m Hm. rewrite merge_fresh. f_equal. apply fresh_all.
    intros i Hi. cbn in Hi.
    apply elem_of_cons in Hi as [-> | Hi]; [done |].
    apply elem_of_cons in Hi as [-> | Hi]; [done |].
    by apply elem_of_nil in Hi.
Qed.

Lemma export_batches_entries batches : forall file,
  NoDup (view_ids (concat batches)) ->
  (forall i, i ∈ view_ids (concat batches) -> i ∉ ids (load file)) ->
  load (export_batches batches file)
  = load file ++ map serialize_message (concat batches).
Proof.
  induction batches as [| b rest IH]; intros file Hnodup Hnew.
  - cbn. by rewrite app_nil_r.
  - cbn [export_batches fold_left concat] in *.
    unfold view_ids in Hnodup, Hnew. rewrite map_app in Hnodup, Hnew.
    apply NoDup_app in Hnodup as (Hb & Hdisj & Hrest).
    fold (export_batches rest
            (Entries (save_messages_to_json b file true))).
    assert (Hsaved : save_messages_to_json b file true
                     = load file ++ map serialize_message b).
    { unfold save_messages_to_json. rewrite merge_fresh. f_equal.
      apply fresh_all. intros i Hi. rewrite ids_serialized in Hi.
      apply Hnew. apply elem_of_app. by left. }
    rewrite IH.
    + cbn [load]. rewrite Hsaved, map_app, app_assoc. done.
    + exact Hrest.
    + intros i Hi. cbn [load]. rewrite Hsaved, ids_app, ids_serialized.
      intros Hin. apply elem_of_app in Hin as [Hin | Hin].
      * apply (Hnew i); [apply elem_of_app; by right | done].
      * by apply (Hdisj i).
Qed.

(** X22.  The export of a run.  When the messages of the batches have
    different ids, none of them in the file at the start, the file
    after one save a batch holds the old entries followed by one entry
    for every message, in the order of dispatch. *)
Theorem export_batches_all (batches : list (list MessageView))
    (file : ExportFile) :
  NoDup (view_ids (concat batches)) ->
  (forall i, i ∈ view_ids (concat batches) -> i ∉ ids (load file)) ->
  load (export_batches batches file)
  = load file ++ map serialize_message (concat batches)
  /\ ids (load (export_batches batches file))
     = ids (load file) ++ view_ids (concat batches).
Proof.
  intros Hnodup Hnew.
  rewrite (export_batches_entries batches file Hnodup Hnew).
  split; [done |]. by rewrite ids_app, ids_serialized.
Qed.

Lemma export_batches_all_witness :
  ids (load (export_batches [[plain_view 1; plain_view 2]; [plain_view 3]]
               Missing))
  = [1; 2; 3].
Proof.
  destruct (export_batches_all [[plain_view 1; plain_view 2]; [plain_view 3]]
              Missing) as [_ ->].
  - apply (bool_decide_unpack _). vm_compute. exact I.
  - intros i _. cbn. apply not_elem_of_nil.
  - reflexivity.
Defined.

End MessageExportExtras.

Module MediaMetaExtras.
Import FileManagement Main MessageExport MediaMeta NextNameExtras.
Local Open Scope string_scope.

Lemma join_two (base_dir _type b : string) :
  plain_dir base_dir -> _type <> "" -> String.prefix "/" _type = false ->
  ends_with_sep _type = false -> String.prefix "/" b = false ->
  os_path_join base_dir [_type; b] = base_dir ++ "/" ++ _type ++ "/" ++ b.
Proof.
  intros [Hne Hsep] Htype Habs Hend Hb.
  unfold os_path_join. cbn [fold_left]. unfold join_step at 2.
  rewrite Habs, Hsep.
  destruct (String.eqb_spec base_dir "") as [-> | _]; [done |]. cbn [orb].
  unfold join_step. rewrite Hb.
  assert (Hend' : ends_with_sep (base_dir ++ "/" ++ _type) = false).
  { clear -Htype Hend. induction base_dir as [| x d IH].
    - change ("" ++ "/" ++ _type) with (String "/" _type).
      cbn [ends_with_sep]. by destruct _type.
    - change (String x d ++ "/" ++ _type) with (String x (d ++ "/" ++ _type)).
      cbn [ends_with_sep]. rewrite IH.
      by destruct (d ++ "/" ++ _type) eqn:E; [destruct d |]. }
  rewrite Hend'.
  destruct (String.eqb_spec (base_dir ++ "/" ++ _type) "") as [E | _].
  - by destruct base_dir.
  - cbn [orb]. by rewrite !string_app_assoc.
Qed.

Lemma join_absolute (base_dir _type b : string) :
  String.prefix "/" b = true -> os_path_join base_dir [_type; b] = b.
Proof.
  intros Hb. unfold os_path_join. cbn [fold_left].
  unfold join_step at 1. by rewrite Hb.
Qed.

Lemma media_type_plain (_type : string) :
  _type ∈ ["photo"; "video"; "audio"; "document"; "voice"; "video_note"] ->
  _type <> "" /\ String.prefix "/" _type = false
  /\ ends_with_sep _type = false.
Proof.
  intros H. repeat (apply elem_of_cons in H as [-> | H]; [done |]).
  by apply elem_of_nil in H.
Qed.

(** X23.  Where the file goes, for the types other than voice and video
    note, when the media object carries a file name attribute [name]
    that is not empty.  A [name] that starts with a slash is the path
    returned, whatever the download directory and the type are:
    [os.path.join] drops what comes before an absolute component.  Any
    other [name] is put under [base_dir/_type] as it is -- with every
    [..] it may hold. *)
Theorem get_media_meta_file_name (this_dir : string) (media_obj : MediaInfo)
    (_type : string) (download_directory : option string)
    (attributes : list DocumentAttribute) (name : string) :
  _type ∈ ["photo"; "video"; "audio"; "document"] ->
  mi_attributes media_obj = Some attributes ->
  first_file_name attributes = Some name ->
  name <> "" ->
  let file_name :=
    fst (_get_media_meta this_dir media_obj _type download_directory) in
  let base_dir := base_dir_of this_dir download_directory in
  (String.prefix "/" name = true -> file_name = name)
  /\ (String.prefix "/" name = false -> plain_dir base_dir ->
        file_name = base_dir ++ "/" ++ _type ++ "/" ++ name).
Proof.
  intros Htype Hattrs Hfirst Hname. cbn zeta.
  assert (Hplain : _type <> "" /\ String.prefix "/" _type = false
                   /\ ends_with_sep _type = false).
  { apply media_type_plain.
    repeat (apply elem_of_cons in Htype as [-> | Htype];
            [repeat constructor |]).
    by apply elem_of_nil in Htype. }
  assert (Hbase : file_name_base_of media_obj _type = name).
  { unfold file_name_base_of. rewrite Hattrs, Hfirst. cbn [from_option id].
    by destruct (String.eqb_spec name "") as [-> | _]. }
  assert (Hbranch : String.eqb _type "voice" || String.eqb _type "video_note"
                    = false).
  { repeat (apply elem_of_cons in Htype as [-> | Htype]; [done |]).
    by apply elem_of_nil in Htype. }
  unfold _get_media_meta. rewrite Hbranch, Hbase. cbn [fst].
  split.
  - apply join_absolute.
  - intros Hrel Hdir. destruct Hplain as (H1 & H2 & H3).
    by apply join_two.
Qed.

(** A document named [/home/user/.profile], to be stored under
    [/srv/out], is given that very path. *)
Lemma get_media_meta_file_name_witness :
  fst (_get_media_meta "/app" absolute_name_document "document"
         (Some "/srv/out"))
  = "/home/user/.profile".
Proof.
  apply (get_media_meta_file_name "/app" absolute_name_document "document"
           (Some "/srv/out") [mkAttr None None (Some "/home/user/.profile")]
           "/home/user/.profile").
  - apply (bool_decide_unpack _). vm_compute. exact I.
  - reflexivity.
  - reflexivity.
  - discriminate.
  - reflexivity.
Defined.

Lemma split_on_nonempty (c : ascii) (l : list ascii) : split_on c l <> [].
Proof.
  destruct l as [| x l]; [done |]. cbn [split_on].
  destruct (Ascii.eqb x c); [done |]. by destruct (split_on c l).
Qed.

Lemma split_on_single (c : ascii) (l : list ascii) :
  length (split_on c l) = 1%nat -> c ∉ l.
Proof.
  induction l as [| x l IH]; [intros _; apply not_elem_of_nil |].
  cbn [split_on]. destruct (Ascii.eqb_spec x c) as [-> | Hne].
  - pose proof (split_on_nonempty c l). cbn [length].
    destruct (split_on c l); [done | simpl; lia].
  - intros Hlen. apply not_elem_of_cons. split; [done |]. apply IH.
    pose proof (split_on_nonempty c l).
    destruct (split_on c l); [done | exact Hlen].
Qed.

Lemma last_cons_nonempty {A} (x : A) (l : list A) (d : A) :
  l <> [] -> List.last (x :: l) d = List.last l d.
Proof. by destruct l. Qed.

Lemma last_piece_spec (c : ascii) (l : list ascii) :
  (c ∉ last_piece c l)
  /\ (((c ∉ l) /\ last_piece c l = l)
      \/ exists pre, l = (pre ++ c :: last_piece c l)%list).
Proof.
  unfold last_piece. induction l as [| x l [IHfree IHshape]].
  - split; [apply not_elem_of_nil | left; split; [apply not_elem_of_nil | done]].
  - cbn [split_on]. destruct (Ascii.eqb_spec x c) as [-> | Hne].
    + rewrite last_cons_nonempty by apply split_on_nonempty.
      split; [done |]. right.
      destruct IHshape as [[_ ->] | [pre Hpre]].
      * by exists [].
      * exists (c :: pre). cbn [app]. by rewrite <- Hpre.
    + destruct (split_on c l) as [| h t] eqn:Hsplit.
      { by destruct (split_on_nonempty c l). }
      destruct t as [| h' t].
      * cbn [List.last] in *.
        assert (Hl : c ∉ l) by (apply split_on_single; by rewrite Hsplit).
        rewrite (split_on_free c l Hl) in Hsplit. injection Hsplit as <-.
        split; [by apply not_elem_of_cons |]. left.
        split; [by apply not_elem_of_cons | done].
      * change (List.last ((x :: h) :: h' :: t) [])
          with (List.last (h :: h' :: t) []).
        split; [done |]. right.
        destruct IHshape as [[Hl _] | [pre Hpre]].
        -- rewrite (split_on_free c l Hl) in Hsplit. discriminate Hsplit.
        -- exists (x :: pre). cbn [app]. by rewrite <- Hpre.
Qed.

(** X24.  The file format.  For a media object with a MIME type that is
    not empty, the format is the text after the last slash of the MIME
    type -- all of it when there is no slash -- and holds no slash
    itself; the type plays no part.  Without a MIME type the format is
    [jpg] for a photo and [None] for everything else. *)
Theorem get_media_meta_file_format (this_dir : string) (media_obj : MediaInfo)
    (_type : string) (download_directory : option string) :
  let file_format :=
    snd (_get_media_meta this_dir media_obj _type download_directory) in
  (forall mime_type, mi_mime_type media_obj = Some mime_type ->
     mime_type <> "" ->
     exists f, file_format = Some f
       /\ ("/"%char ∉ list_ascii_of_string f)
       /\ ((("/"%char ∉ list_ascii_of_string mime_type) /\ f = mime_type)
           \/ exists pre, mime_type = pre ++ "/" ++ f))
  /\ (mi_mime_type media_obj = None \/ mi_mime_type media_obj = Some "" ->
      file_format = if String.eqb _type "photo" then Some "jpg" else None).
Proof.
  cbn zeta.
  assert (Hsnd : snd (_get_media_meta this_dir media_obj _type
                        download_directory)
                 = file_format_of media_obj _type).
  { unfold _get_media_meta. by destruct (_ || _). }
  rewrite Hsnd. unfold file_format_of. split.
  - intros mime_type -> Hne.
    destruct (String.eqb_spec mime_type "") as [-> | _]; [done |]. cbn [negb].
    eexists. split; [reflexivity |].
    rewrite list_ascii_of_string_of_list_ascii.
    destruct (last_piece_spec "/" (list_ascii_of_string mime_type))
      as [Hfree Hshape].
    split; [exact Hfree |].
    destruct Hshape as [[Hno Heq] | [pre Hpre]].
    + left. split; [exact Hno |]. rewrite Heq.
      apply string_of_list_ascii_of_string.
    + right. exists (string_of_list_ascii pre). apply L_inj.
      rewrite !L_app, !list_ascii_of_string_of_list_ascii. exact Hpre.
  - by intros [-> | ->].
Qed.

Lemma replace_colons_free (s : string) :
  ":"%char ∉ list_ascii_of_string (replace_colons s).
Proof.
  unfold replace_colons. rewrite list_ascii_of_string_of_list_ascii.
  induction (list_ascii_of_string s) as [| x l IH]; cbn [map].
  - apply not_elem_of_nil.
  - apply not_elem_of_cons. split; [| exact IH].
    by destruct (Ascii.eqb_spec x ":") as [-> | Hne].
Qed.

(** X25.  The name of a voice or video note.  Under a plain directory
    the path is [base_dir/_type/_type_<timestamp>.<format>]; the
    timestamp is the ISO date with every colon replaced, so it holds
    none; and when the media object has no MIME type the format reads
    [None], so the name ends in [.None]. *)
Theorem get_media_meta_voice_name (this_dir : string) (media_obj : MediaInfo)
    (_type : string) (download_directory : option string) :
  _type ∈ ["voice"; "video_note"] ->
  plain_dir (base_dir_of this_dir download_directory) ->
  let meta := _get_media_meta this_dir media_obj _type download_directory in
  let timestamp := replace_colons (mi_date media_obj) in
  fst meta
  = base_dir_of this_dir download_directory ++ "/" ++ _type ++ "/"
    ++ _type ++ "_" ++ timestamp ++ "." ++ default "None" (snd meta)
  /\ (":"%char ∉ list_ascii_of_string timestamp)
  /\ (mi_mime_type media_obj = None -> snd meta = None).
Proof.
  intros Htype Hdir. cbn zeta.
  assert (Hplain : _type <> "" /\ String.prefix "/" _type = false
                   /\ ends_with_sep _type = false).
  { apply media_type_plain.
    repeat (apply elem_of_cons in Htype as [-> | Htype];
            [repeat constructor |]).
    by apply elem_of_nil in Htype. }
  assert (Hbranch : String.eqb _type "voice" || String.eqb _type "video_note"
                    = true).
  { repeat (apply elem_of_cons in Htype as [-> | Htype]; [done |]).
    by apply elem_of_nil in Htype. }
  unfold _get_media_meta. rewrite Hbranch. cbn [fst snd].
  destruct Hplain as (H1 & H2 & H3).
  split; [| split].
  - repeat (apply elem_of_cons in Htype as [-> | Htype];
            [by apply join_two |]).
    by apply elem_of_nil in Htype.
  - apply replace_colons_free.
  - intros Hmime. unfold file_format_of. rewrite Hmime.
    repeat (apply elem_of_cons in Htype as [-> | Htype]; [done |]).
    by apply elem_of_nil in Htype.
Qed.

(** A voice note without a MIME type is stored as [voice_<date>.None]. *)
Lemma get_media_meta_voice_name_witness :
  fst (_get_media_meta "/app" bare_voice "voice" None)
  = "/app/voice/voice_2024-01-02T03-04-05+00-00.None".
Proof.
  destruct (get_media_meta_voice_name "/app" bare_voice "voice" None)
    as (-> & _ & _).
  - apply (bool_decide_unpack _). vm_compute. exact I.
  - split; [discriminate | reflexivity].
  - reflexivity.
Defined.

End MediaMetaExtras.

Module ModelsSizeExtras.
Import Models ModelsSize.
Local Open Scope Q_scope.

Lemma scale_at_least_one (l : list string) : forall size : Q,
  1 <= size -> 1 <= fst (scale l size).
Proof.
  induction l as [| u rest IH]; intros size Hsize; cbn [scale]; [done |].
  destruct (Qlt_le_dec size 1024) as [_ | Hbig]; [done |].
  apply IH. apply Qle_shift_div_l; [reflexivity | lra].
Qed.

Lemma scale_spec (l : list string) : forall size : Q,
  exists k : nat,
    (k <= length l)%nat
    /\ snd (scale l size) = nth k l "PB"%string
    /\ fst (scale l size) * kibi k == size
    /\ ((k < length l)%nat -> fst (scale l size) < 1024)
    /\ ((0 < k)%nat -> 1 <= fst (scale l size)).
Proof.
  induction l as [| u rest IH]; intros size; cbn [scale].
  - exists 0%nat. cbn [fst snd nth kibi length].
    split; [lia |]. split; [done |]. split; [lra |]. split; intros; lia.
  - destruct (Qlt_le_dec size 1024) as [Hsmall | Hbig].
    + exists 0%nat. cbn [fst snd nth kibi length].
      split; [lia |]. split; [done |]. split; [lra |].
      split; [done | intros; lia].
    + destruct (IH (size / 1024)) as (k & Hk & Hunit & Hval & Hlt & _).
      exists (S k). cbn [nth kibi length].
      split; [lia |]. split; [done |]. split; [| split].
      * transitivity (1024 * (fst (scale rest (size / 1024)) * kibi k));
          [ring |].
        rewrite Hval. field.
      * intros H. apply Hlt. lia.
      * intros _. apply scale_at_least_one.
        apply Qle_shift_div_l; [reflexivity | lra].
Qed.


End ModelsSizeExtras.

Module ErrorHandlerExtras.
Import Py ErrorHandlerPy.
Local Open Scope string_scope.

(** X27.  Which exceptions [handle_error] books as warnings.  The table
    of [from_exception] is looked up by the name of the exception's own
    class, so with a logger a call counts as a warning exactly when it is
    not critical and that name is one of [FileReferenceExpiredError],
    [TimeoutError], [FloodWaitError] and [ConnectionError]; every other
    call counts as an error.  An exception whose class has none of the
    eight names of the table is an [UNKNOWN_ERROR], whatever classes it
    derives from. *)
Theorem handle_error_warning_names (self : ErrorHandler) (exception : PyExc)
    (message_id : option Z) (critical : bool) :
  let after := fst (handle_error self exception message_id true critical) in
  let warning :=
    negb critical
    && bool_decide (exc_type_name exception
                      ∈ ["FileReferenceExpiredError"; "TimeoutError";
                         "FloodWaitError"; "ConnectionError"]) in
  after
  = (if warning
     then mkErrorHandler (error_count self) (warnings_count self + 1)
     else mkErrorHandler (error_count self + 1) (warnings_count self))
  /\ (exc_type_name exception ∉ map fst mapping ->
        from_exception exception = UNKNOWN_ERROR)
  /\ (forall other, exc_type_name other = exc_type_name exception ->
        from_exception other = from_exception exception).
Proof.
  cbn zeta. split; [| split].
  - unfold handle_error, books_error, from_exception, mapping.
    cbn [dict_get].
    destruct critical; cbn [orb negb andb]; [done |].
    repeat match goal with
           | |- context [String.eqb (exc_type_name exception) ?s] =>
               destruct (String.eqb_spec (exc_type_name exception) s) as [-> | ?]
           end; cbn [get_severity]; try done.
    rewrite bool_decide_eq_false_2; [done |].
    intros H. repeat (apply elem_of_cons in H as [H | H]; [done |]).
    by apply elem_of_nil in H.
  - intros Hno. unfold from_exception, mapping in *. cbn [dict_get map fst] in *.
    repeat match goal with
           | |- context [String.eqb (exc_type_name exception) ?s] =>
               destruct (String.eqb_spec (exc_type_name exception) s) as [E | ?]
           end; try done;
      exfalso; apply Hno; rewrite E; set_solver.
  - intros other H. unfold from_exception. by rewrite H.
Qed.

End ErrorHandlerExtras.

Module ValidatorsExtras.
Import Py Validators.
Local Open Scope string_scope.

Lemma prefix_first (a : ascii) (s : string) :
  String.prefix (String a "") (String a s) = true.
Proof.
  cbn [String.prefix]. destruct (ascii_dec a a) as [_ | H]; [| done].
  by destruct s.
Qed.

Section WithStr.

Variable strip : string -> string.
Variable isdigit : string -> bool.
Variable py_int : string -> option Z.

Local Abbreviation chat := (validate_chat_id strip isdigit py_int).
Local Abbreviation api := (validate_api_id py_int).

(** X28.  What [validate_chat_id] lets through, whatever [strip],
    [isdigit] and [int] do.  It returns an integer other than 0, [True],
    or a string that is not empty, and raises nothing but [ValueError].
    An integer other than 0 comes back as it is.  After an [@] the rest
    of the stripped text is returned without any further look at it; so
    the result need not be a fixed point: a name of digits after [@]
    comes back as a string, and that string alone is turned into an
    integer. *)
Theorem validate_chat_id_result (chat_id : PyVal) :
  match chat chat_id with
  | Ok (VInt n) => n <> 0%Z
  | Ok (VBool b) => b = true
  | Ok (VStr s) => s <> ""
  | Ok VOther => False
  | Raise e => e = ValueError
  end
  /\ (forall n, n <> 0%Z -> chat (VInt n) = Ok (VInt n))
  /\ (forall s username, strip s = String "@" username -> username <> "" ->
        chat (VStr s) = Ok (VStr username))
  /\ (forall s n, s <> "" -> strip s = s ->
        strip (String "@" s) = String "@" s ->
        String.prefix "@" s = false -> isdigit s = true ->
        py_int s = Some n -> n <> 0%Z ->
        chat (VStr (String "@" s)) = Ok (VStr s)
        /\ chat (VStr s) = Ok (VInt n)).
Proof.
  split; [| split; [| split]].
  - destruct chat_id as [n | [|] | s |]; cbn [validate_chat_id int_value].
    + case_decide as H; [done |]. intros ->. by apply H.
    + by case_decide.
    + by case_decide.
    + destruct (String.eqb_spec (strip s) "") as [_ | Hne]; [done |].
      destruct (String.prefix "@" (strip s)).
      * by destruct (String.eqb_spec (drop_first (strip s)) "").
      * destruct (negb (String.prefix "-" (strip s)) && negb (isdigit (strip s)));
          [done |].
        destruct (py_int (strip s)) as [n |]; [| done]. by case_decide.
    + done.
  - intros n Hn. cbn [validate_chat_id int_value].
    case_decide as H; [| done]. by injection H.
  - intros s username Hs Hne. cbn [validate_chat_id]. rewrite Hs.
    cbn [drop_first].
    destruct (String.eqb_spec (String "@" username) "") as [E | _]; [done |].
    rewrite prefix_first.
    by destruct (String.eqb_spec username "").
  - intros s n Hne Hs Hat Hpre Hdigit Hint Hn. split.
    + cbn [validate_chat_id]. rewrite Hat. cbn [drop_first].
      destruct (String.eqb_spec (String "@" s) "") as [E | _]; [done |].
      rewrite prefix_first.
      by destruct (String.eqb_spec s "").
    + cbn [validate_chat_id]. rewrite Hs, Hpre, Hdigit, Hint.
      destruct (String.eqb_spec s "") as [E | _]; [done |].
      rewrite andb_false_r. by case_decide.
Qed.

(** X29.  What [validate_api_id] lets through, whatever [int] does.  It
    returns a positive integer or [True], never a string, and raises
    nothing but [ValueError].  A string is accepted exactly when [int]
    reads a positive number from it, and that number is returned. *)
Theorem validate_api_id_result (api_id : PyVal) :
  match api api_id with
  | Ok (VInt n) => (0 < n)%Z
  | Ok (VBool b) => b = true /\ api_id = VBool true
  | Ok (VStr _) | Ok VOther => False
  | Raise e => e = ValueError
  end
  /\ (forall s n, api (VStr s) = Ok (VInt n)
        <-> py_int s = Some n /\ (0 < n)%Z)
  /\ (forall n, (0 < n)%Z -> api (VInt n) = Ok (VInt n)).
Proof.
  split; [| split].
  - unfold validate_api_id.
    destruct api_id as [n | [|] | s |]; cbn.
    + case_decide; [done | lia].
    + by case_decide.
    + by case_decide.
    + destruct (py_int s) as [n |]; cbn; [| done].
      case_decide; [done | lia].
    + done.
  - intros s n. unfold validate_api_id. destruct (py_int s) as [m |]; cbn.
    + case_decide as H.
      * split; [done |]. intros [[= ->] Hpos]. lia.
      * split; [intros [= ->]; split; [done | lia] | by intros [[= ->] _]].
    + split; [done | by intros [? _]].
  - intros n Hn. unfold validate_api_id. cbn. case_decide; [lia | done].
Qed.

End WithStr.

End ValidatorsExtras.
